(** * Window-aware registration scheduler: block monitor, fee strategy, lanes

    A shallow embedding of three Python modules:
    - [settings/block_monitor.py]   (class [EnhancedBlockMonitor]),
    - [monitoring/fee_strategy.py]  (class [AdaptiveFeeStrategy]),
    - [strategy/registration.py]    (class [RegistrationAssistant]).

    Conventions of the embedding.
    - Python [int] is [Z]; [%] is [Z.modulo] (both take the sign of the
      divisor), and a zero divisor raises.
    - In [FeeStrategy] a Python [float] is read as an exact rational ([Q]):
      rounding, overflow and NaN are outside that model, which carries the
      properties that do not depend on them.  [Binary64] gives the same
      class over IEEE 754 doubles, rounding included; the statistics, whose
      values depend on the rounding, are stated there.
    - Division is partial, as in Python.
    - An uncaught exception is the [Raise] case of [result].
    - [datetime] values are microseconds since [datetime.min], as [Z].
    - Objects mutated in place are passed and returned explicitly. *)

From Stdlib Require Import ZArith QArith List String Bool Lia Lqa.
From Stdlib Require Import DecimalString Permutation.
From Stdlib Require Import Floats Uint63.
Import ListNotations.

Local Open Scope Z_scope.

(** ** Exceptions *)

Inductive exn : Type :=
| ZeroDivisionError
| ValueError
| ExternalFault.        (* anything raised by a collaborator (network, chain) *)

Inductive result (A : Type) : Type :=
| Ok (a : A)
| Raise (e : exn).

Arguments Ok {A} a.
Arguments Raise {A} e.

Definition bind {A B : Type} (r : result A) (k : A -> result B) : result B :=
  match r with
  | Ok a => k a
  | Raise e => Raise e
  end.

Declare Scope py_scope.
Delimit Scope py_scope with py.
Notation "x <- c ;; k" := (bind c (fun x => k))
  (at level 61, c at next level, right associativity) : py_scope.
Local Open Scope py_scope.

(** ** Built-ins *)

Module Py.

(** [range(lo, hi)] as the list it iterates over. *)
Definition range (lo hi : Z) : list Z :=
  map (fun i => lo + Z.of_nat i) (seq 0 (Z.to_nat (hi - lo))).

(** [x in xs] on integers. *)
Definition contains (x : Z) (xs : list Z) : bool :=
  existsb (Z.eqb x) xs.

(** [max(xs)]: the first maximal item; [ValueError] on an empty argument. *)
Definition max (xs : list Z) : result Z :=
  match xs with
  | [] => Raise ValueError
  | x :: rest => Ok (fold_left (fun acc y => if y >? acc then y else acc) rest x)
  end.

(** [min(xs)]: the first minimal item; [ValueError] on an empty argument. *)
Definition min (xs : list Z) : result Z :=
  match xs with
  | [] => Raise ValueError
  | x :: rest => Ok (fold_left (fun acc y => if y <? acc then y else acc) rest x)
  end.

(** [a % b]. *)
Definition mod_ (a b : Z) : result Z :=
  if b =? 0 then Raise ZeroDivisionError else Ok (a mod b).

(** [str(n)] for an integer. *)
Definition str (n : Z) : string := NilZero.string_of_int (Z.to_int n).

(** Truthiness of a string-or-None. *)
Definition truthy_str (s : option string) : bool :=
  match s with
  | None => false
  | Some EmptyString => false
  | Some _ => true
  end.

(** Truthiness of an int-or-None. *)
Definition truthy_int (n : option Z) : bool :=
  match n with
  | None => false
  | Some v => negb (v =? 0)
  end.

End Py.

(** ** bittensor_registration/config.py *)

Module Config.
Definition TEMPO : Z := 360.
Definition BLOCK_WINDOW : list Z := Py.range 10 60.
Definition BASE_PRIORITY_FEE : Q := 0.5.
Definition MAX_PRIORITY_FEE : Q := 2.0.
Definition TAOSTATS_API_KEY : option string :=
  Some "tao-e77615fe-cbba-4117-a18e-267c03786882:c8e63081"%string.
Definition SUBSCAN_API_KEY : option string :=
  Some "d7edbc10195e49f79e8cfe7d8437e33e"%string.
End Config.

(** ** settings/block_monitor.py *)

Module BlockMonitor.

(** [timedelta(seconds=n)] in microseconds. *)
Definition seconds (n : Z) : Z := n * 1000000.

(** [datetime.min]. *)
Definition datetime_min : Z := 0.

(** The fields of [EnhancedBlockMonitor] that the methods below read or
    write ([stop_event], [monitor_thread] and [update_countdown] are not
    touched by them). *)
Record monitor : Type := {
  current_block : option Z;
  last_updated : Z;
  taostats_api_key : option string;
  subscan_api_key : option string;
  tempo : Z;
  block_window : list Z
}.

(** [__init__]. *)
Definition init (taostats subscan : option string) : monitor :=
  {| current_block := None;
     last_updated := datetime_min;
     taostats_api_key := taostats;
     subscan_api_key := subscan;
     tempo := Config.TEMPO;
     block_window := Config.BLOCK_WINDOW |}.

(** The three dictionaries [_get_window_info] can return. *)
Inductive window_info : Type :=
| InfoUnknown
    (* {'in_window': False, 'block_in_tempo': None, 'next_window': None,
        'status': 'Unknown'} *)
| InfoActive (block_in_tempo blocks_left : Z)
    (* {'in_window': True, 'block_in_tempo', 'blocks_left', 'status'} *)
| InfoWaiting (block_in_tempo next_window : Z).
    (* {'in_window': False, 'block_in_tempo', 'next_window', 'status'} *)

(** [info['in_window']]. *)
Definition in_window (w : window_info) : bool :=
  match w with
  | InfoActive _ _ => true
  | _ => false
  end.

(** [info['block_in_tempo']]. *)
Definition block_in_tempo (w : window_info) : option Z :=
  match w with
  | InfoUnknown => None
  | InfoActive b _ => Some b
  | InfoWaiting b _ => Some b
  end.

(** [info.get('blocks_left')]: the key exists in the active dictionary only. *)
Definition blocks_left (w : window_info) : option Z :=
  match w with
  | InfoActive _ l => Some l
  | _ => None
  end.

(** [info.get('next_window')]. *)
Definition next_window (w : window_info) : option Z :=
  match w with
  | InfoWaiting _ n => Some n
  | _ => None
  end.

(** [info['status']]. *)
Definition status (w : window_info) : string :=
  match w with
  | InfoUnknown => "Unknown"
  | InfoActive _ l => "WINDOW ACTIVE - " ++ Py.str l ++ " blocks left"
  | InfoWaiting _ n => "Next window in ~" ++ Py.str n ++ " blocks"
  end%string.

(** The forward distance the loop of [_get_window_info] appends for [w]. *)
Definition forward_distance (tempo block_in_tempo w : Z) : Z :=
  if w >? block_in_tempo then w - block_in_tempo
  else tempo - block_in_tempo + w.

(** [_get_window_info(block)]. *)
Definition _get_window_info (m : monitor) (block : option Z)
  : result window_info :=
  match block with
  | None => Ok InfoUnknown
  | Some b =>
      bit <- Py.mod_ b (tempo m) ;;
      if Py.contains bit (block_window m) then
        mx <- Py.max (block_window m) ;;
        let left := mx - bit in
        if left <=? 0 then
          mx' <- Py.max (block_window m) ;;
          mn <- Py.min (block_window m) ;;
          Ok (InfoActive bit (mx' - mn + tempo m))
        else Ok (InfoActive bit left)
      else
        nw <- Py.min (map (forward_distance (tempo m) bit) (block_window m)) ;;
        Ok (InfoWaiting bit nw)
  end.

(** [get_current_block()], with [datetime.now()] passed in. *)
Definition get_current_block (m : monitor) (now : Z)
  : result (option Z * option window_info) :=
  match current_block m with
  | Some b =>
      if now - last_updated m <? seconds 10 then
        w <- _get_window_info m (Some b) ;;
        Ok (Some b, Some w)
      else Ok (None, None)
  | None => Ok (None, None)
  end.

(** What one HTTP exchange of a probe amounts to.  [None] is an exception
    raised by [requests]; [block_field] is the integer the probe extracts
    from the JSON body, [None] when a key is missing or when [json()] or
    [int()] raises (the probe's [except] turns all of these into
    [return False] before any field is written). *)
Record response : Type := {
  status_code : Z;
  block_field : option Z
}.

(** The tail shared by the five probes, from [if response.status_code ==
    200] to the final [return False]; [now] is [datetime.now()]. *)
Definition accept_response (m : monitor) (r : option response) (now : Z)
  : bool * monitor :=
  match r with
  | None => (false, m)
  | Some resp =>
      if status_code resp =? 200 then
        match block_field resp with
        | None => (false, m)
        | Some new_block =>
            let store :=
              (true,
               {| current_block := Some new_block;
                  last_updated := now;
                  taostats_api_key := taostats_api_key m;
                  subscan_api_key := subscan_api_key m;
                  tempo := tempo m;
                  block_window := block_window m |}) in
            let unchanged :=
              match current_block m with
              | Some old => old =? new_block
              | None => false
              end in
            if unchanged then store
            else
              (* the debug line formats [_get_window_info(new_block)];
                 an exception from it is caught by the probe *)
              match _get_window_info m (Some new_block) with
              | Ok _ => store
              | Raise _ => (false, m)
              end
        end
      else (false, m)
  end.

Definition _check_via_taostats (m : monitor) (r : option response) (now : Z)
  : bool * monitor :=
  if negb (Py.truthy_str (taostats_api_key m)) then (false, m)
  else accept_response m r now.

Definition _check_via_subscan (m : monitor) (r : option response) (now : Z)
  : bool * monitor :=
  if negb (Py.truthy_str (subscan_api_key m)) then (false, m)
  else accept_response m r now.

Definition _check_via_polkadot_subscan := accept_response.
Definition _check_via_bittensor_dashboard := accept_response.
Definition _check_via_finney_explorer := accept_response.

Definition probe : Type := monitor -> option response -> Z -> bool * monitor.

(** The [methods] list of [_monitor_blocks], in its order. *)
Definition methods : list probe :=
  [ _check_via_taostats;
    _check_via_subscan;
    _check_via_polkadot_subscan;
    _check_via_bittensor_dashboard;
    _check_via_finney_explorer ].

(** The [for method in methods] loop of one polling tick: each probe that
    is called gets the exchange and the clock reading of its turn. *)
Fixpoint poll (ms : list probe) (feed : list (option response * Z))
    (m : monitor) : monitor :=
  match ms, feed with
  | p :: ms', (r, now) :: feed' =>
      let (success, m') := p m r now in
      if success then m' else poll ms' feed' m'
  | _, _ => m
  end.

Definition tick (feed : list (option response * Z)) (m : monitor) : monitor :=
  poll methods feed m.

End BlockMonitor.

(** ** monitoring/fee_strategy.py *)

Module FeeStrategy.

Local Open Scope Q_scope.

(** *** Arithmetic of Python numbers, read over [Q] *)

(** [a < b]. *)
Definition ltb (a b : Q) : bool := negb (Qle_bool b a).

(** [a > b]. *)
Definition gtb (a b : Q) : bool := ltb b a.

(** [min(a, b)]: [b] when [b < a], otherwise [a]. *)
Definition min2 (a b : Q) : Q := if ltb b a then b else a.

(** [max(a, b)]: [b] when [b > a], otherwise [a]. *)
Definition max2 (a b : Q) : Q := if gtb b a then b else a.

(** [a / b] for two integers: true division, which raises on a zero
    divisor. *)
Definition true_div (a b : Z) : result Q :=
  if (b =? 0)%Z then Raise ZeroDivisionError
  else Ok (inject_Z a / inject_Z b).

(** [len(xs)]. *)
Definition len {A : Type} (xs : list A) : Z := Z.of_nat (List.length xs).

(** *** The class *)

Record strategy : Type := {
  base_multiplier : Q;
  max_multiplier : Q;
  adapt_threshold : Z;
  attempts : Z;
  successes : Z;
  success_rate : Q;
  block_congestion : Q;
  recent_fees : list Q;
  last_fee : option Q
}.

(** [__init__(base_multiplier, max_multiplier, adapt_threshold)]. *)
Definition init (base max : Q) (threshold : Z) : strategy :=
  {| base_multiplier := base;
     max_multiplier := max;
     adapt_threshold := threshold;
     attempts := 0;
     successes := 0;
     success_rate := 0.5;
     block_congestion := 0.0;
     recent_fees := [];
     last_fee := None |}.

(** The constructor's defaults. *)
Definition default : strategy := init 0.5 2.0 5.

(** The [if success is not None] block of [update_statistics]. *)
Definition record_outcome (s : strategy) (success : bool) : result strategy :=
  let attempts' := (attempts s + 1)%Z in
  let successes' := if success then (successes s + 1)%Z else successes s in
  rate <- true_div successes' attempts' ;;
  Ok {| base_multiplier := base_multiplier s;
        max_multiplier := max_multiplier s;
        adapt_threshold := adapt_threshold s;
        attempts := attempts';
        successes := successes';
        success_rate := rate;
        block_congestion := block_congestion s;
        recent_fees := recent_fees s;
        last_fee := last_fee s |}.

(** The new congestion computed by the [if block_time is not None] block. *)
Definition next_congestion (congestion block_time : Q) : Q :=
  if gtb block_time 12.0 then min2 1.0 (congestion + 0.1)
  else if gtb block_time 9.0 then min2 0.8 (congestion + 0.05)
  else if gtb block_time 6.0 then min2 0.5 (congestion + 0.02)
  else max2 0.0 (congestion - 0.05).

Definition record_timing (s : strategy) (block_time : Q) : strategy :=
  {| base_multiplier := base_multiplier s;
     max_multiplier := max_multiplier s;
     adapt_threshold := adapt_threshold s;
     attempts := attempts s;
     successes := successes s;
     success_rate := success_rate s;
     block_congestion := next_congestion (block_congestion s) block_time;
     recent_fees := recent_fees s;
     last_fee := last_fee s |}.

(** [update_statistics(success=None, block_time=None)]. *)
Definition update_statistics (s : strategy)
    (success : option bool) (block_time : option Q) : result strategy :=
  s1 <- match success with
        | Some b => record_outcome s b
        | None => Ok s
        end ;;
  Ok match block_time with
     | Some t => record_timing s1 t
     | None => s1
     end.

(** The [modifier] of the adaptive branch of [compute_priority_fee]. *)
Definition modifier (s : strategy) : Q :=
  if ltb (success_rate s) 0.2 then
    let congestion_boost := block_congestion s * 0.5 in
    min2 (max_multiplier s) (max_multiplier s - 0.5 + congestion_boost)
  else if ltb (success_rate s) 0.5 then
    let congestion_boost := block_congestion s * 0.3 in
    min2 (max_multiplier s - 0.2) (base_multiplier s + 0.5 + congestion_boost)
  else
    let congestion_boost := block_congestion s * 0.2 in
    base_multiplier s + congestion_boost.

(** The value [compute_priority_fee] binds to [fee]. *)
Definition priced (s : strategy) (base_cost : Q) : Q :=
  if (attempts s >? adapt_threshold s)%Z then base_cost * modifier s
  else base_cost * base_multiplier s.

(** [recent_fees.append(fee)] followed by the guarded [pop(0)]. *)
Definition remember (fees : list Q) (fee : Q) : list Q :=
  let fees' := fees ++ [fee] in
  if (len fees' >? 10)%Z then tl fees' else fees'.

(** [compute_priority_fee(base_cost)]: the returned fee and the object
    afterwards. *)
Definition compute_priority_fee (s : strategy) (base_cost : Q)
  : Q * strategy :=
  let fee := priced s base_cost in
  (fee,
   {| base_multiplier := base_multiplier s;
      max_multiplier := max_multiplier s;
      adapt_threshold := adapt_threshold s;
      attempts := attempts s;
      successes := successes s;
      success_rate := success_rate s;
      block_congestion := block_congestion s;
      recent_fees := remember (recent_fees s) fee;
      last_fee := Some fee |}).

(** *** Call sequences *)

(** The two mutating entry points, with their arguments. *)
Inductive call : Type :=
| UpdateStatistics (success : option bool) (block_time : option Q)
| ComputePriorityFee (base_cost : Q).

Definition step (s : strategy) (c : call) : result strategy :=
  match c with
  | UpdateStatistics success block_time => update_statistics s success block_time
  | ComputePriorityFee base_cost => Ok (snd (compute_priority_fee s base_cost))
  end.

Fixpoint run (s : strategy) (cs : list call) : result strategy :=
  match cs with
  | [] => Ok s
  | c :: cs' => s' <- step s c ;; run s' cs'
  end.

End FeeStrategy.

(** ** monitoring/fee_strategy.py over IEEE 754 doubles *)

Module Binary64.

#[local] Set Warnings "-inexact-float".
Local Open Scope float_scope.

(** *** Arithmetic of Python floats

    [float] is the binary64 type with round-to-nearest-even, which is what
    Python's [+], [-], [*] and [/] compute on floats. *)

(** [a < b] and [a > b]; both are False when an operand is NaN. *)
Definition lt (a b : float) : bool := PrimFloat.ltb a b.
Definition gt (a b : float) : bool := PrimFloat.ltb b a.

(** [min(a, b)]: [b] when [b < a], otherwise [a]. *)
Definition min2 (a b : float) : float := if lt b a then b else a.

(** [max(a, b)]: [b] when [b > a], otherwise [a]. *)
Definition max2 (a b : float) : float := if gt b a then b else a.

(** [a == 0.0]: true of both zeros, false of NaN. *)
Definition is_zero (a : float) : bool := PrimFloat.eqb a 0.

(** Truthiness of a float: [a != 0.0]. *)
Definition truthy (a : float) : bool := negb (is_zero a).

(** [a / b] for floats: ZeroDivisionError on a zero divisor, otherwise the
    rounded quotient (which may be an infinity, a zero or NaN). *)
Definition div (a b : float) : result float :=
  if is_zero b then Raise ZeroDivisionError else Ok (a / b).

(** [float(n)] for an integer below 2^63 in absolute value (a length, a
    counter). *)
Definition of_int (n : Z) : float :=
  if (n <? 0)%Z then - of_uint63 (Uint63.of_Z (- n))
  else of_uint63 (Uint63.of_Z n).

(** [a / b] for two integers.  Python rounds the exact quotient once; for
    operands below 2^53 in absolute value, which convert exactly, that is
    the quotient of the converted operands. *)
Definition true_div (a b : Z) : result float :=
  if (b =? 0)%Z then Raise ZeroDivisionError
  else Ok (of_int a / of_int b).

(** [sum(xs)]: the additions from the left, starting from the integer 0
    (CPython 3.12 and later additionally compensate the rounding error of
    the additions). *)
Definition sum (xs : list float) : float := fold_left PrimFloat.add xs 0.

(** [min(xs)] and [max(xs)] for a list. *)
Definition min_list (xs : list float) : result float :=
  match xs with
  | [] => Raise ValueError
  | x :: rest => Ok (fold_left (fun acc y => if lt y acc then y else acc) rest x)
  end.

Definition max_list (xs : list float) : result float :=
  match xs with
  | [] => Raise ValueError
  | x :: rest => Ok (fold_left (fun acc y => if gt y acc then y else acc) rest x)
  end.

(** [len(xs)]. *)
Definition len {A : Type} (xs : list A) : Z := Z.of_nat (List.length xs).

(** *** The class *)

Record strategy : Type := {
  base_multiplier : float;
  max_multiplier : float;
  adapt_threshold : Z;
  attempts : Z;
  successes : Z;
  success_rate : float;
  block_congestion : float;
  recent_fees : list float;
  last_fee : option float
}.

(** [__init__(base_multiplier, max_multiplier, adapt_threshold)]. *)
Definition init (base max : float) (threshold : Z) : strategy :=
  {| base_multiplier := base;
     max_multiplier := max;
     adapt_threshold := threshold;
     attempts := 0;
     successes := 0;
     success_rate := 0.5;
     block_congestion := 0.0;
     recent_fees := [];
     last_fee := None |}.

(** The constructor's defaults. *)
Definition default : strategy := init 0.5 2.0 5.

(** The [if success is not None] block of [update_statistics]. *)
Definition record_outcome (s : strategy) (success : bool) : result strategy :=
  let attempts' := (attempts s + 1)%Z in
  let successes' := if success then (successes s + 1)%Z else successes s in
  rate <- true_div successes' attempts' ;;
  Ok {| base_multiplier := base_multiplier s;
        max_multiplier := max_multiplier s;
        adapt_threshold := adapt_threshold s;
        attempts := attempts';
        successes := successes';
        success_rate := rate;
        block_congestion := block_congestion s;
        recent_fees := recent_fees s;
        last_fee := last_fee s |}.

(** The new congestion computed by the [if block_time is not None] block. *)
Definition next_congestion (congestion block_time : float) : float :=
  if gt block_time 12.0 then min2 1.0 (congestion + 0.1)
  else if gt block_time 9.0 then min2 0.8 (congestion + 0.05)
  else if gt block_time 6.0 then min2 0.5 (congestion + 0.02)
  else max2 0.0 (congestion - 0.05).

Definition record_timing (s : strategy) (block_time : float) : strategy :=
  {| base_multiplier := base_multiplier s;
     max_multiplier := max_multiplier s;
     adapt_threshold := adapt_threshold s;
     attempts := attempts s;
     successes := successes s;
     success_rate := success_rate s;
     block_congestion := next_congestion (block_congestion s) block_time;
     recent_fees := recent_fees s;
     last_fee := last_fee s |}.

(** [update_statistics(success=None, block_time=None)]. *)
Definition update_statistics (s : strategy)
    (success : option bool) (block_time : option float) : result strategy :=
  s1 <- match success with
        | Some b => record_outcome s b
        | None => Ok s
        end ;;
  Ok match block_time with
     | Some t => record_timing s1 t
     | None => s1
     end.

(** The [modifier] of the adaptive branch of [compute_priority_fee]. *)
Definition modifier (s : strategy) : float :=
  if lt (success_rate s) 0.2 then
    let congestion_boost := block_congestion s * 0.5 in
    min2 (max_multiplier s) (max_multiplier s - 0.5 + congestion_boost)
  else if lt (success_rate s) 0.5 then
    let congestion_boost := block_congestion s * 0.3 in
    min2 (max_multiplier s - 0.2) (base_multiplier s + 0.5 + congestion_boost)
  else
    let congestion_boost := block_congestion s * 0.2 in
    base_multiplier s + congestion_boost.

(** The value [compute_priority_fee] binds to [fee]. *)
Definition priced (s : strategy) (base_cost : float) : float :=
  if (attempts s >? adapt_threshold s)%Z then base_cost * modifier s
  else base_cost * base_multiplier s.

(** [recent_fees.append(fee)] followed by the guarded [pop(0)]. *)
Definition remember (fees : list float) (fee : float) : list float :=
  let fees' := fees ++ [fee] in
  if (len fees' >? 10)%Z then tl fees' else fees'.

(** [compute_priority_fee(base_cost)]: the returned fee and the object
    afterwards. *)
Definition compute_priority_fee (s : strategy) (base_cost : float)
  : float * strategy :=
  let fee := priced s base_cost in
  (fee,
   {| base_multiplier := base_multiplier s;
      max_multiplier := max_multiplier s;
      adapt_threshold := adapt_threshold s;
      attempts := attempts s;
      successes := successes s;
      success_rate := success_rate s;
      block_congestion := block_congestion s;
      recent_fees := remember (recent_fees s) fee;
      last_fee := Some fee |}).

(** The dictionary [get_fee_statistics] returns. *)
Record fee_statistics : Type := {
  current_multiplier : float;
  stat_success_rate : float;
  congestion : float;
  avg_fee : float;
  min_fee : float;
  max_fee : float
}.

(** The conditional expression stored under ['current_multiplier']. *)
Definition reported_multiplier (s : strategy) : result float :=
  match last_fee s with
  | Some lf =>
      if truthy lf then
        d <- div lf (base_multiplier s) ;;
        div lf d
      else Ok (base_multiplier s)
  | None => Ok (base_multiplier s)
  end.

(** [get_fee_statistics()]. *)
Definition get_fee_statistics (s : strategy) : result fee_statistics :=
  match recent_fees s with
  | [] =>
      Ok {| current_multiplier := base_multiplier s;
            stat_success_rate := success_rate s;
            congestion := block_congestion s;
            avg_fee := 0.0;
            min_fee := 0.0;
            max_fee := 0.0 |}
  | _ :: _ =>
      cm <- reported_multiplier s ;;
      avg <- div (sum (recent_fees s)) (of_int (len (recent_fees s))) ;;
      mn <- min_list (recent_fees s) ;;
      mx <- max_list (recent_fees s) ;;
      Ok {| current_multiplier := cm;
            stat_success_rate := success_rate s;
            congestion := block_congestion s;
            avg_fee := avg;
            min_fee := mn;
            max_fee := mx |}
  end.

(** *** Call sequences *)

(** The two mutating entry points, with their arguments. *)
Inductive call : Type :=
| UpdateStatistics (success : option bool) (block_time : option float)
| ComputePriorityFee (base_cost : float).

Definition step (s : strategy) (c : call) : result strategy :=
  match c with
  | UpdateStatistics success block_time => update_statistics s success block_time
  | ComputePriorityFee base_cost => Ok (snd (compute_priority_fee s base_cost))
  end.

Fixpoint run (s : strategy) (cs : list call) : result strategy :=
  match cs with
  | [] => Ok s
  | c :: cs' => s' <- step s c ;; run s' cs'
  end.


End Binary64.

(** ** strategy/registration.py *)

Module Registration.

Import FeeStrategy.
Local Open Scope Q_scope.

(** A wallet dictionary [{"coldkey": ..., "hotkey": ...}]. *)
Record wallet : Type := {
  coldkey : string;
  hotkey : string
}.

(** What the chain answers during one call of [register_neuron], for the
    wallet and the netuid of that call.  [Raise] is an exception raised by
    the call. *)
Record chain_view : Type := {
  open_handles : result unit;          (* bt.wallet(...), bt.subtensor(...) *)
  is_hotkey_registered : result bool;
  get_burn_cost : result (option Q);   (* [None]: the cost is unavailable *)
  get_balance : result Q;
  bt_register : result bool            (* whether [result is True] *)
}.

(** What [register_neuron] writes to the log and sends to Telegram. *)
Inductive event : Type :=
| LogAlreadyRegistered (w : wallet)
| LogCostUnavailable (w : wallet)
| LogInsufficientBalance (w : wallet) (balance cost : Q)
| LogNotInWindow (status : string)
| LogAttempt (w : wallet) (cost priority_fee total_cost balance : Q)
| NotifySuccess (w : wallet)
| NotifyFailure (w : wallet)
| NotifyError (w : wallet).

(** One call seen from outside: what it returned (or raised), the shared
    fee strategy afterwards, and what it emitted. *)
Record outcome : Type := {
  returned : result bool;
  strategy_after : strategy;
  events : list event
}.

Definition done (b : bool) (fs : strategy) (evs : list event) : outcome :=
  {| returned := Ok b; strategy_after := fs; events := evs |}.

(** [self.fee_strategy.update_statistics(success=b)] on the shared object.
    When the division raises, the two counters were already incremented. *)
Definition update_in_place (fs : strategy) (b : bool)
  : strategy * result unit :=
  match update_statistics fs (Some b) None with
  | Ok fs' => (fs', Ok tt)
  | Raise e =>
      ({| base_multiplier := base_multiplier fs;
          max_multiplier := max_multiplier fs;
          adapt_threshold := adapt_threshold fs;
          attempts := (attempts fs + 1)%Z;
          successes := if b then (successes fs + 1)%Z else successes fs;
          success_rate := success_rate fs;
          block_congestion := block_congestion fs;
          recent_fees := recent_fees fs;
          last_fee := last_fee fs |},
       Raise e)
  end.

(** The [except Exception] handler of [register_neuron]. *)
Definition on_exception (w : wallet) (fs : strategy) (evs : list event)
  : outcome :=
  let (fs', r) := update_in_place fs false in
  {| returned := (_ <- r ;; Ok false);
     strategy_after := fs';
     events := evs ++ [NotifyError w] |}.

(** [current_block and window_info] followed by [not window_info['in_window']]. *)
Definition known_closed (current_block : option Z)
    (window_info : option BlockMonitor.window_info) : option string :=
  match window_info with
  | Some wi =>
      if Py.truthy_int current_block && negb (BlockMonitor.in_window wi)
      then Some (BlockMonitor.status wi)
      else None
  | None => None
  end.

(** [register_neuron(wallet, netuid, use_priority_fee)]: [mon] is the block
    monitor as it is when the call reads it, [now] the clock then. *)
Definition register_neuron (mon : BlockMonitor.monitor) (fs : strategy)
    (w : wallet) (use_priority_fee : bool) (v : chain_view) (now : Z)
  : outcome :=
  match open_handles v with
  | Raise _ => on_exception w fs []
  | Ok _ =>
  match is_hotkey_registered v with
  | Raise _ => on_exception w fs []
  | Ok true => done true fs [LogAlreadyRegistered w]
  | Ok false =>
  match get_burn_cost v with
  | Raise _ => on_exception w fs []
  | Ok None => done false fs [LogCostUnavailable w]
  | Ok (Some cost) =>
  match get_balance v with
  | Raise _ => on_exception w fs []
  | Ok balance =>
  if ltb balance cost then
    done false fs [LogInsufficientBalance w balance cost]
  else
  match BlockMonitor.get_current_block mon now with
  | Raise _ => on_exception w fs []
  | Ok (current_block, window_info) =>
  match known_closed current_block window_info with
  | Some st => done false fs [LogNotInWindow st]
  | None =>
      let '(priority_fee, fs1) :=
        if use_priority_fee then compute_priority_fee fs cost else (0, fs) in
      let total_cost := if use_priority_fee then cost + priority_fee else cost in
      let evs := [LogAttempt w cost priority_fee total_cost balance] in
      match bt_register v with
      | Raise _ => on_exception w fs1 evs
      | Ok true =>
          match update_in_place fs1 true with
          | (fs2, Ok _) => done true fs2 (evs ++ [NotifySuccess w])
          | (fs2, Raise _) => on_exception w fs2 (evs ++ [NotifySuccess w])
          end
      | Ok false =>
          match update_in_place fs1 false with
          | (fs2, Ok _) => done false fs2 (evs ++ [NotifyFailure w])
          | (fs2, Raise _) => on_exception w fs2 (evs ++ [NotifyFailure w])
          end
      end
  end end end end end end.

(** What one pass through the loop of [register_thread] observes of the
    world: the two readings of [stop_event] that decide what happens to the
    lane, and the inputs of its [register_neuron] call.  (The readings made
    around the delay only shorten the sleep.) *)
Record iteration : Type := {
  stop_at_head : bool;          (* [stop_event.is_set()] in the [while] test *)
  monitor_now : BlockMonitor.monitor;
  clock : Z;
  view : chain_view;
  stop_after_attempt : bool     (* [stop_event.is_set()] before the append *)
}.

(** A lane: the worker's list, the fee strategy it shares, and a record of
    each pass (the wallet popped and what its attempt produced). *)
Record lane : Type := {
  wallets : list wallet;
  fee_strategy : strategy;
  history : list (wallet * outcome)
}.

(** The lane after the body of the loop has run once on head [w]. *)
Definition pass (use_priority_fee : bool) (it : iteration)
    (w : wallet) (rest : list wallet) (l : lane) : lane :=
  let o := register_neuron (monitor_now it) (fee_strategy l) w
             use_priority_fee (view it) (clock it) in
  let requeue :=
    match returned o with
    | Ok success => negb success && negb (stop_after_attempt it)
    | Raise _ => negb (stop_after_attempt it)     (* [except Exception] *)
    end in
  {| wallets := if requeue then rest ++ [w] else rest;
     fee_strategy := strategy_after o;
     history := history l ++ [(w, o)] |}.

(** [register_thread(wallets, netuid, use_priority_fee, delay_range,
    stop_event)], followed for as many passes as [its] describes. *)
Fixpoint register_thread (use_priority_fee : bool) (its : list iteration)
    (l : lane) : lane :=
  match its with
  | [] => l
  | it :: its' =>
      if stop_at_head it then l
      else
        match wallets l with
        | [] => l
        | w :: rest =>
            register_thread use_priority_fee its'
              (pass use_priority_fee it w rest l)
        end
  end.

(** The wallets attempted so far, in order. *)
Definition attempted (l : lane) : list wallet := map fst (history l).

End Registration.

(** * Properties of the block monitor *)

Module BlockMonitorFacts.

Import BlockMonitor.
Local Open Scope Z_scope.

Lemma contains_In (x : Z) (xs : list Z) :
  Py.contains x xs = true <-> In x xs.
Proof.
  unfold Py.contains. rewrite existsb_exists. split.
  - intros [y [Hy Heq]]. apply Z.eqb_eq in Heq. now subst.
  - intros H. exists x. split; [assumption | apply Z.eqb_refl].
Qed.

Lemma max_nonempty (xs : list Z) :
  xs <> [] -> exists v, Py.max xs = Ok v.
Proof. destruct xs; [congruence | intros _; simpl; eauto]. Qed.

Lemma min_nonempty (xs : list Z) :
  xs <> [] -> exists v, Py.min xs = Ok v.
Proof. destruct xs; [congruence | intros _; simpl; eauto]. Qed.

Lemma mod_nonzero (a b : Z) : b <> 0 -> Py.mod_ a b = Ok (a mod b).
Proof.
  intros Hb. unfold Py.mod_.
  destruct (b =? 0) eqn:E; [apply Z.eqb_eq in E; contradiction | reflexivity].
Qed.

(** Whenever the tempo is nonzero and the window non-empty, the window
    computation returns, and which dictionary it returns is decided by
    membership of the offset alone. *)
Lemma window_info_shape (m : monitor) (h : Z) :
  tempo m <> 0 -> block_window m <> [] ->
  exists w,
    _get_window_info m (Some h) = Ok w /\
    block_in_tempo w = Some (h mod tempo m) /\
    in_window w = Py.contains (h mod tempo m) (block_window m).
Proof.
  intros Ht Hw. unfold _get_window_info.
  rewrite (mod_nonzero h _ Ht). cbn [bind].
  destruct (Py.contains (h mod tempo m) (block_window m)) eqn:Hc.
  - destruct (max_nonempty _ Hw) as [mx Hmx].
    destruct (min_nonempty _ Hw) as [mn Hmn].
    rewrite Hmx. cbn [bind].
    destruct (mx - h mod tempo m <=? 0).
    + rewrite Hmn. cbn [bind]. eexists. repeat split.
    + eexists. repeat split.
  - assert (Hne : map (forward_distance (tempo m) (h mod tempo m)) (block_window m) <> []).
    { destruct (block_window m); [congruence | discriminate]. }
    destruct (min_nonempty _ Hne) as [nw Hnw].
    rewrite Hnw. cbn [bind]. eexists. repeat split.
Qed.

(** C3. For every tempo > 0, every non-empty window inside [0, tempo) and
    every block height h, [_get_window_info] returns a dictionary, and its
    [in_window] entry is true exactly when [h mod tempo] is a member of the
    window. *)
Theorem in_window_iff_offset_in_window (m : monitor) (h : Z) :
  0 < tempo m ->
  block_window m <> [] ->
  Forall (fun w => 0 <= w < tempo m) (block_window m) ->
  exists w,
    _get_window_info m (Some h) = Ok w /\
    (in_window w = true <-> In (h mod tempo m) (block_window m)).
Proof.
  intros Ht Hne _.
  destruct (window_info_shape m h) as [w [Hw [_ Hin]]]; [lia | assumption |].
  exists w. split; [assumption |].
  rewrite Hin. apply contains_In.
Qed.

Lemma in_window_iff_offset_in_window_witness :
  exists w,
    _get_window_info (init None None) (Some 725) = Ok w /\
    (in_window w = true <-> In (725 mod 360) (Py.range 10 60)).
Proof.
  apply (in_window_iff_offset_in_window (init None None) 725).
  - reflexivity.
  - discriminate.
  - vm_compute. repeat (constructor; [split; [discriminate | reflexivity] |]).
    constructor.
Defined.

(** C6. With tempo 360 and window 10..59, at every block height whose
    offset is 59 the monitor reports the window as active with
    (59 - 10) + 360 = 409 blocks left. *)
Theorem last_offset_wraps_to_409 (m : monitor) (h : Z) :
  tempo m = 360 ->
  block_window m = Py.range 10 60 ->
  h mod 360 = 59 ->
  exists w,
    _get_window_info m (Some h) = Ok w /\
    in_window w = true /\
    blocks_left w = Some ((59 - 10) + 360) /\
    blocks_left w = Some 409.
Proof.
  intros Ht Hw Hh. exists (InfoActive 59 409).
  split; [| repeat split].
  unfold _get_window_info. rewrite Ht, Hw.
  unfold Py.mod_. change (360 =? 0) with false. cbv iota.
  cbn [bind]. rewrite Hh. reflexivity.
Qed.

Lemma last_offset_wraps_to_409_witness :
  exists w,
    _get_window_info (init None None) (Some 3659) = Ok w /\
    in_window w = true /\
    blocks_left w = Some ((59 - 10) + 360) /\
    blocks_left w = Some 409.
Proof.
  apply (last_offset_wraps_to_409 (init None None) 3659); reflexivity.
Defined.

(** C7. [get_current_block] answers (None, None) whenever no height was
    ever stored or the stored one is at least ten seconds old, also when
    the integer is still in the cache; it returns a height only when the
    stored observation is younger than ten seconds, and then the stored
    height together with its window dictionary. *)
Theorem get_current_block_fresh_only (m : monitor) (now : Z) :
  (current_block m = None \/ seconds 10 <= now - last_updated m ->
     get_current_block m now = Ok (None, None)) /\
  (forall b w,
     get_current_block m now = Ok (Some b, w) ->
     current_block m = Some b /\
     now - last_updated m < seconds 10 /\
     exists wi, w = Some wi /\ _get_window_info m (Some b) = Ok wi) /\
  (forall b,
     current_block m = Some b ->
     now - last_updated m < seconds 10 ->
     tempo m <> 0 ->
     block_window m <> [] ->
     exists wi,
       _get_window_info m (Some b) = Ok wi /\
       get_current_block m now = Ok (Some b, Some wi)).
Proof.
  unfold get_current_block. repeat split.
  - intros [Hnone | Hold].
    + now rewrite Hnone.
    + destruct (current_block m); [| reflexivity].
      destruct (now - last_updated m <? seconds 10) eqn:E; [| reflexivity].
      apply Z.ltb_lt in E. lia.
  - destruct (current_block m) as [c |]; [| discriminate].
    destruct (now - last_updated m <? seconds 10); [| discriminate].
    destruct (_get_window_info m (Some c)); cbn [bind] in H; congruence.
  - destruct (current_block m) as [c |]; [| discriminate].
    destruct (now - last_updated m <? seconds 10) eqn:E; [| discriminate].
    now apply Z.ltb_lt in E.
  - destruct (current_block m) as [c |]; [| discriminate].
    destruct (now - last_updated m <? seconds 10); [| discriminate].
    destruct (_get_window_info m (Some c)) as [wi |] eqn:Hwi;
      cbn [bind] in H; [| discriminate].
    exists wi. split; congruence.
  - intros b Hb Hfresh Ht Hw.
    destruct (window_info_shape m b Ht Hw) as [wi [Hwi _]].
    exists wi. split; [assumption |].
    rewrite Hb. apply Z.ltb_lt in Hfresh. rewrite Hfresh, Hwi. reflexivity.
Qed.

(** A monitor whose cache holds height 100, stored at time 5 s. *)
Definition cached_100 : monitor :=
  {| current_block := Some 100;
     last_updated := seconds 5;
     taostats_api_key := Config.TAOSTATS_API_KEY;
     subscan_api_key := Config.SUBSCAN_API_KEY;
     tempo := Config.TEMPO;
     block_window := Config.BLOCK_WINDOW |}.

(** A source answering 200 with block 90. *)
Definition answer_90 : option response :=
  Some {| status_code := 200; block_field := Some 90 |}.

(** C2, as stated, fails: a successful probe that fetched 90 replaces the
    cached 100, through the keyed probe and through the public one. *)
Lemma successful_probe_lowers_cached_height :
  (fst (_check_via_taostats cached_100 answer_90 (seconds 7)) = true /\
   current_block (snd (_check_via_taostats cached_100 answer_90 (seconds 7)))
     = Some 90) /\
  (fst (_check_via_polkadot_subscan cached_100 answer_90 (seconds 7)) = true /\
   current_block (snd (_check_via_polkadot_subscan cached_100 answer_90 (seconds 7)))
     = Some 90) /\
  current_block (tick [(answer_90, seconds 7)] cached_100) = Some 90 /\
  current_block cached_100 = Some 100 /\
  90 < 100.
Proof. vm_compute. repeat split; reflexivity. Qed.

(** What a probe may do to the monitor: nothing when it reports failure;
    when it reports success, it stored exactly the height it fetched and
    the time of the probe, and nothing else changed. *)
Definition overwrites_on_success_only (p : probe) : Prop :=
  forall (m : monitor) (r : option response) (now : Z),
    (fst (p m r now) = false -> snd (p m r now) = m) /\
    (fst (p m r now) = true ->
       exists new_block,
         r = Some {| status_code := 200; block_field := Some new_block |} /\
         snd (p m r now) =
           {| current_block := Some new_block;
              last_updated := now;
              taostats_api_key := taostats_api_key m;
              subscan_api_key := subscan_api_key m;
              tempo := tempo m;
              block_window := block_window m |}).

Lemma accept_response_overwrites : overwrites_on_success_only accept_response.
Proof.
  intros m r now. unfold accept_response.
  destruct r as [[code field] |]; cbn [status_code block_field];
    [| split; [reflexivity | discriminate]].
  destruct (code =? 200) eqn:Hcode; [| split; [reflexivity | discriminate]].
  apply Z.eqb_eq in Hcode. subst code.
  destruct field as [new_block |]; [| split; [reflexivity | discriminate]].
  destruct (match current_block m with
            | Some old => old =? new_block
            | None => false
            end).
  - split; [discriminate | intros _; eauto].
  - destruct (_get_window_info m (Some new_block)).
    + split; [discriminate | intros _; eauto].
    + split; [reflexivity | discriminate].
Qed.

Lemma keyed_probe_overwrites (key : monitor -> option string) :
  overwrites_on_success_only
    (fun m r now =>
       if negb (Py.truthy_str (key m)) then (false, m)
       else accept_response m r now).
Proof.
  intros m r now. destruct (negb (Py.truthy_str (key m))).
  - split; [reflexivity | discriminate].
  - apply accept_response_overwrites.
Qed.

(** C2, amended. For each of the five probes: a probe that reports failure
    leaves the monitor (cached height and time stamp included) as it was,
    and a probe that reports success has stored the height it fetched,
    whatever the height cached before. *)
Theorem probes_overwrite_on_success_only :
  Forall overwrites_on_success_only methods.
Proof.
  unfold methods.
  repeat constructor;
    first [ apply accept_response_overwrites
          | apply (keyed_probe_overwrites taostats_api_key)
          | apply (keyed_probe_overwrites subscan_api_key) ].
Qed.

(** A polling tick either leaves the monitor as it was (every probe
    failed) or ends with the height and time of a successful exchange. *)
Lemma poll_unchanged_or_stored (ms : list probe) :
  Forall overwrites_on_success_only ms ->
  forall feed m,
    poll ms feed m = m \/
    exists r now, In (r, now) feed /\
      exists new_block,
        r = Some {| status_code := 200; block_field := Some new_block |} /\
        current_block (poll ms feed m) = Some new_block /\
        last_updated (poll ms feed m) = now.
Proof.
  induction 1 as [| p ms Hp _ IH]; intros feed m.
  - left. destruct feed; reflexivity.
  - destruct feed as [| [r now] feed']; [left; reflexivity |].
    cbn [poll]. destruct (Hp m r now) as [Hfail Hok].
    destruct (p m r now) as [[|] m']; cbn [fst snd] in *.
    + right. destruct (Hok eq_refl) as [nb [Hr Hm]].
      exists r, now. split; [left; reflexivity |].
      exists nb. subst m'. repeat split. assumption.
    + rewrite (Hfail eq_refl).
      destruct (IH feed' m) as [Hsame | [r' [now' [Hin Hrest]]]].
      * left. assumption.
      * right. exists r', now'. split; [right; assumption | assumption].
Qed.

End BlockMonitorFacts.

(** * Properties of the fee strategy *)

Module FeeStrategyFacts.

Import FeeStrategy.
Local Open Scope Q_scope.

(** *** The boolean tests *)

Lemma ltb_lt (a b : Q) : ltb a b = true <-> a < b.
Proof.
  unfold ltb. rewrite negb_true_iff, <- not_true_iff_false, Qle_bool_iff.
  split; [apply Qnot_le_lt | apply Qlt_not_le].
Qed.

Lemma ltb_ge (a b : Q) : ltb a b = false <-> b <= a.
Proof. unfold ltb. rewrite negb_false_iff. apply Qle_bool_iff. Qed.

Lemma min2_le_l (a b : Q) : min2 a b <= a.
Proof.
  unfold min2. destruct (ltb b a) eqn:E.
  - apply ltb_lt in E. lra.
  - lra.
Qed.

Lemma min2_cases (a b : Q) : (min2 a b = b /\ b < a) \/ (min2 a b = a /\ a <= b).
Proof.
  unfold min2. destruct (ltb b a) eqn:E.
  - left. split; [reflexivity | now apply ltb_lt].
  - right. split; [reflexivity | now apply ltb_ge].
Qed.

Lemma max2_cases (a b : Q) : (max2 a b = b /\ a < b) \/ (max2 a b = a /\ b <= a).
Proof.
  unfold max2, gtb. destruct (ltb a b) eqn:E.
  - left. split; [reflexivity | now apply ltb_lt].
  - right. split; [reflexivity | now apply ltb_ge].
Qed.

Lemma true_div_ok (a b : Z) :
  (b <> 0)%Z -> true_div a b = Ok (inject_Z a / inject_Z b).
Proof.
  intros Hb. unfold true_div.
  destruct (Z.eqb_spec b 0); [contradiction | reflexivity].
Qed.

(** *** Timing updates alone *)

(** A timing update never raises and touches the congestion only. *)
Lemma timing_update (s : strategy) (t : Q) :
  update_statistics s None (Some t) = Ok (record_timing s t).
Proof. reflexivity. Qed.

(** [UpdateStatistics None (Some t)] for each [t] of a list. *)
Definition timing_updates (ts : list Q) : list call :=
  map (fun t => UpdateStatistics None (Some t)) ts.

Lemma run_timing_updates (ts : list Q) (s : strategy) :
  exists s',
    run s (timing_updates ts) = Ok s' /\
    attempts s' = attempts s /\
    adapt_threshold s' = adapt_threshold s /\
    base_multiplier s' = base_multiplier s.
Proof.
  revert s. induction ts as [| t ts IH]; intros s.
  - exists s. repeat split.
  - destruct (IH (record_timing s t)) as [s' [Hrun [Ha [Ht Hb]]]].
    exists s'. cbn [timing_updates map run step].
    rewrite timing_update. cbn [bind]. split; [exact Hrun |].
    repeat split; assumption.
Qed.

(** C4. While the recorded attempts do not exceed the adaptation
    threshold, [compute_priority_fee] returns exactly
    [base_cost * base_multiplier], for every base cost, whatever the
    congestion is and whatever timing updates are recorded before the
    call. *)
Theorem cold_start_fee_is_flat (s : strategy) (ts : list Q) (base_cost : Q) :
  (attempts s <= adapt_threshold s)%Z ->
  fst (compute_priority_fee s base_cost) = base_cost * base_multiplier s /\
  exists s',
    run s (timing_updates ts) = Ok s' /\
    fst (compute_priority_fee s' base_cost) = base_cost * base_multiplier s.
Proof.
  intros Hcold.
  assert (Hflat : forall s0, (attempts s0 <= adapt_threshold s0)%Z ->
            fst (compute_priority_fee s0 base_cost)
            = base_cost * base_multiplier s0).
  { intros s0 H0. cbn [compute_priority_fee fst]. unfold priced.
    destruct (attempts s0 >? adapt_threshold s0)%Z eqn:E; [| reflexivity].
    apply Z.gtb_lt in E. lia. }
  split; [now apply Hflat |].
  destruct (run_timing_updates ts s) as [s' [Hrun [Ha [Ht Hb]]]].
  exists s'. split; [exact Hrun |].
  rewrite <- Hb. apply Hflat. lia.
Qed.

Lemma cold_start_fee_is_flat_witness :
  fst (compute_priority_fee default 3) = 3 * base_multiplier default /\
  exists s',
    run default (timing_updates [13; 13; 10]) = Ok s' /\
    fst (compute_priority_fee s' 3) = 3 * base_multiplier default.
Proof.
  apply (cold_start_fee_is_flat default [13; 13; 10] 3).
  vm_compute. discriminate.
Defined.

(** C8. With an empty fee history [get_fee_statistics] returns (it does
    not raise), with the average, minimum and maximum fee 0.0 and the
    current multiplier equal to the base multiplier. *)
Theorem empty_history_statistics (s : Binary64.strategy) :
  Binary64.recent_fees s = [] ->
  Binary64.get_fee_statistics s =
    Ok {| Binary64.current_multiplier := Binary64.base_multiplier s;
          Binary64.stat_success_rate := Binary64.success_rate s;
          Binary64.congestion := Binary64.block_congestion s;
          Binary64.avg_fee := 0.0%float;
          Binary64.min_fee := 0.0%float;
          Binary64.max_fee := 0.0%float |}.
Proof. intros H. unfold Binary64.get_fee_statistics. now rewrite H. Qed.

Lemma empty_history_statistics_witness :
  Binary64.get_fee_statistics Binary64.default =
    Ok {| Binary64.current_multiplier := Binary64.base_multiplier Binary64.default;
          Binary64.stat_success_rate := Binary64.success_rate Binary64.default;
          Binary64.congestion := Binary64.block_congestion Binary64.default;
          Binary64.avg_fee := 0.0%float;
          Binary64.min_fee := 0.0%float;
          Binary64.max_fee := 0.0%float |}.
Proof. apply (empty_history_statistics Binary64.default). reflexivity. Defined.

(** *** What every call sequence preserves *)

(** The attempts counter is non-negative and the history holds at most
    ten fees. *)
Definition well_formed (s : strategy) : Prop :=
  (0 <= attempts s)%Z /\ (List.length (recent_fees s) <= 10)%nat.

(** The constructor's arguments, which no method writes. *)
Definition same_parameters (s s' : strategy) : Prop :=
  base_multiplier s' = base_multiplier s /\
  max_multiplier s' = max_multiplier s /\
  adapt_threshold s' = adapt_threshold s.

Definition congestion_in_range (s : strategy) : Prop :=
  0 <= block_congestion s <= 1.

Lemma init_well_formed (base max : Q) (threshold : Z) :
  well_formed (init base max threshold).
Proof. split; cbn; lia. Qed.

Lemma init_congestion_in_range (base max : Q) (threshold : Z) :
  congestion_in_range (init base max threshold).
Proof. unfold congestion_in_range. cbn. lra. Qed.

Lemma next_congestion_in_range (c t : Q) :
  0 <= c <= 1 -> 0 <= next_congestion c t <= 1.
Proof.
  intros Hc. unfold next_congestion.
  destruct (gtb t 12.0); [| destruct (gtb t 9.0); [| destruct (gtb t 6.0)]].
  - destruct (min2_cases 1.0 (c + 0.1)) as [[-> H] | [-> H]]; lra.
  - destruct (min2_cases 0.8 (c + 0.05)) as [[-> H] | [-> H]]; lra.
  - destruct (min2_cases 0.5 (c + 0.02)) as [[-> H] | [-> H]]; lra.
  - destruct (max2_cases 0.0 (c - 0.05)) as [[-> H] | [-> H]]; lra.
Qed.

Lemma remember_spec (fees : list Q) (fee : Q) :
  (List.length fees <= 10)%nat ->
  (List.length (remember fees fee) <= 10)%nat /\
  ((List.length fees < 10)%nat -> remember fees fee = fees ++ [fee]) /\
  (List.length fees = 10%nat ->
     exists oldest rest,
       fees = oldest :: rest /\ remember fees fee = rest ++ [fee]).
Proof.
  intros Hlen. unfold remember, len.
  rewrite length_app. cbn [List.length].
  destruct (Z.of_nat (List.length fees + 1) >? 10)%Z eqn:E.
  - apply Z.gtb_lt in E.
    assert (Hten : List.length fees = 10%nat) by lia.
    destruct fees as [| oldest rest]; [discriminate |].
    cbn [app tl]. repeat split.
    + rewrite length_app. cbn [List.length] in *. lia.
    + lia.
    + intros _. exists oldest, rest. split; reflexivity.
  - assert (Hlt : (List.length fees < 10)%nat).
    { destruct (Z.gtb_spec (Z.of_nat (List.length fees + 1)) 10); [discriminate | lia]. }
    repeat split.
    + rewrite length_app. cbn [List.length]. lia.
    + lia.
Qed.

Lemma record_outcome_total (s : strategy) (b : bool) :
  (0 <= attempts s)%Z ->
  exists s',
    record_outcome s b = Ok s' /\
    attempts s' = (attempts s + 1)%Z /\
    recent_fees s' = recent_fees s /\
    block_congestion s' = block_congestion s /\
    same_parameters s s'.
Proof.
  intros Ha. unfold record_outcome.
  rewrite true_div_ok by lia.
  cbn [bind]. eexists. split; [reflexivity |].
  repeat split.
Qed.

Lemma step_preserves (s : strategy) (c : call) :
  well_formed s ->
  exists s',
    step s c = Ok s' /\
    well_formed s' /\
    same_parameters s s' /\
    (congestion_in_range s -> congestion_in_range s').
Proof.
  intros [Ha Hlen]. destruct c as [success block_time | base_cost].
  - cbn [step]. unfold update_statistics.
    assert (H1 : exists s1,
               match success with
               | Some b => record_outcome s b
               | None => Ok s
               end = Ok s1 /\
               (0 <= attempts s1)%Z /\
               recent_fees s1 = recent_fees s /\
               block_congestion s1 = block_congestion s /\
               same_parameters s s1).
    { destruct success as [b |].
      - destruct (record_outcome_total s b Ha) as [s1 [H [Hat [Hf [Hc Hp]]]]].
        exists s1. repeat split; try assumption; try apply Hp. lia.
      - exists s. repeat split; assumption. }
    destruct H1 as [s1 [-> [Ha1 [Hf1 [Hc1 Hp1]]]]]. cbn [bind].
    eexists. split; [reflexivity |].
    destruct block_time as [t |].
    + repeat split; cbn; try apply Hp1; try lia.
      * rewrite Hf1. assumption.
      * rewrite Hc1. apply next_congestion_in_range. apply H.
      * rewrite Hc1. apply next_congestion_in_range. apply H.
    + repeat split; try apply Hp1; try lia.
      * rewrite Hf1. assumption.
      * unfold congestion_in_range in *. rewrite Hc1. apply H.
      * unfold congestion_in_range in *. rewrite Hc1. apply H.
  - cbn [step compute_priority_fee snd]. eexists. split; [reflexivity |].
    repeat split; cbn; try assumption; try apply H.
    apply remember_spec. assumption.
Qed.

Lemma run_preserves (cs : list call) (s : strategy) :
  well_formed s ->
  exists s',
    run s cs = Ok s' /\
    well_formed s' /\
    same_parameters s s' /\
    (congestion_in_range s -> congestion_in_range s').
Proof.
  revert s. induction cs as [| c cs IH]; intros s Hwf.
  - exists s. split; [reflexivity |]. split; [exact Hwf |].
    split; [repeat split | auto].
  - destruct (step_preserves s c Hwf) as [s1 [Hstep [Hwf1 [Hp1 Hc1]]]].
    destruct (IH s1 Hwf1) as [s' [Hrun [Hwf' [Hp' Hc']]]].
    exists s'. cbn [run]. rewrite Hstep. cbn [bind].
    split; [exact Hrun |]. split; [exact Hwf' |].
    split; [| auto].
    destruct Hp1 as [? [? ?]], Hp' as [? [? ?]].
    repeat split; congruence.
Qed.

(** *** The multiplier under the default parameters *)

Lemma modifier_within_max (s : strategy) :
  base_multiplier s = 0.5 ->
  max_multiplier s = 2.0 ->
  congestion_in_range s ->
  modifier s <= max_multiplier s.
Proof.
  intros Hb Hm [Hc0 Hc1]. unfold modifier. rewrite Hb, Hm.
  destruct (ltb (success_rate s) 0.2); [| destruct (ltb (success_rate s) 0.5)].
  - apply min2_le_l.
  - pose proof (min2_le_l (2.0 - 0.2) (0.5 + 0.5 + block_congestion s * 0.3)).
    lra.
  - lra.
Qed.

(** C5. With the default parameters (0.5, 2.0, 5), after every sequence
    of calls (outcome updates, timing updates, earlier fee computations)
    and for every non-negative base cost, the fee [compute_priority_fee]
    returns is at most [base_cost * max_multiplier]: the multiplier of
    each tier and the flat cold-start multiplier are at most
    [max_multiplier]. *)
Theorem fee_within_max_multiplier (cs : list call) (base_cost : Q) :
  0 <= base_cost ->
  exists s,
    run default cs = Ok s /\
    max_multiplier s = 2.0 /\
    base_multiplier s <= max_multiplier s /\
    modifier s <= max_multiplier s /\
    fst (compute_priority_fee s base_cost) <= base_cost * max_multiplier s.
Proof.
  intros Hcost.
  destruct (run_preserves cs default (init_well_formed _ _ _))
    as [s [Hrun [_ [[Hb [Hm _]] Hc]]]].
  specialize (Hc (init_congestion_in_range _ _ _)).
  change (base_multiplier default) with 0.5 in Hb.
  change (max_multiplier default) with 2.0 in Hm.
  pose proof (modifier_within_max s Hb Hm Hc) as Hmod.
  assert (Hbase : base_multiplier s <= max_multiplier s)
    by (rewrite Hb, Hm; lra).
  exists s. repeat split; try assumption.
  cbn [compute_priority_fee fst]. unfold priced.
  rewrite (Qmult_comm base_cost (max_multiplier s)).
  destruct (attempts s >? adapt_threshold s)%Z.
  - rewrite (Qmult_comm base_cost (modifier s)).
    apply Qmult_le_compat_r; assumption.
  - rewrite (Qmult_comm base_cost (base_multiplier s)).
    apply Qmult_le_compat_r; assumption.
Qed.

(** Six failed attempts, then much congestion. *)
Definition struggling : list call :=
  repeat (UpdateStatistics (Some false) None) 6 ++
  repeat (UpdateStatistics None (Some 13)) 12.

Lemma fee_within_max_multiplier_witness :
  exists s,
    run default struggling = Ok s /\
    max_multiplier s = 2.0 /\
    base_multiplier s <= max_multiplier s /\
    modifier s <= max_multiplier s /\
    fst (compute_priority_fee s 7) <= 7 * max_multiplier s.
Proof.
  apply (fee_within_max_multiplier struggling 7).
  vm_compute. discriminate.
Defined.

(** C9. After every sequence of calls on a freshly constructed strategy
    the history holds at most ten fees, and a further
    [compute_priority_fee] appends its fee at the tail, removes exactly
    the oldest entry when ten were already held, and leaves at most ten. *)
Theorem recent_fees_bounded_fifo
    (base max : Q) (threshold : Z) (cs : list call) :
  exists s,
    run (init base max threshold) cs = Ok s /\
    (List.length (recent_fees s) <= 10)%nat /\
    forall base_cost,
      let fee := fst (compute_priority_fee s base_cost) in
      let s' := snd (compute_priority_fee s base_cost) in
      last_fee s' = Some fee /\
      (List.length (recent_fees s') <= 10)%nat /\
      ((List.length (recent_fees s) < 10)%nat ->
         recent_fees s' = recent_fees s ++ [fee]) /\
      (List.length (recent_fees s) = 10%nat ->
         exists oldest rest,
           recent_fees s = oldest :: rest /\
           recent_fees s' = rest ++ [fee]).
Proof.
  destruct (run_preserves cs _ (init_well_formed base max threshold))
    as [s [Hrun [[_ Hlen] _]]].
  exists s. split; [exact Hrun |]. split; [exact Hlen |].
  intros base_cost fee s'. subst fee s'.
  cbn [compute_priority_fee fst snd last_fee recent_fees].
  split; [reflexivity |].
  apply remember_spec. exact Hlen.
Qed.

End FeeStrategyFacts.

(** * Properties of the registration lanes *)

Module RegistrationFacts.

Import FeeStrategy Registration.
Local Open Scope Q_scope.

(** The chain answers of an attempt that gets as far as the balance test
    and fails it: not registered, cost available, balance below the cost. *)
Definition insufficient (v : chain_view) (balance cost : Q) : Prop :=
  open_handles v = Ok tt /\
  is_hotkey_registered v = Ok false /\
  get_burn_cost v = Ok (Some cost) /\
  get_balance v = Ok balance /\
  balance < cost.

(** No reading of [stop_event] during the pass finds it set. *)
Definition running (it : iteration) : Prop :=
  stop_at_head it = false /\ stop_after_attempt it = false.

Lemma register_neuron_insufficient
    (mon : BlockMonitor.monitor) (fs : strategy) (w : wallet)
    (use_priority_fee : bool) (v : chain_view) (now : Z) (balance cost : Q) :
  insufficient v balance cost ->
  register_neuron mon fs w use_priority_fee v now =
    done false fs [LogInsufficientBalance w balance cost].
Proof.
  intros [Ho [Hr [Hc [Hb Hlt]]]]. unfold register_neuron.
  rewrite Ho, Hr, Hc, Hb.
  apply FeeStrategyFacts.ltb_lt in Hlt. now rewrite Hlt.
Qed.

Lemma pass_insufficient
    (use_priority_fee : bool) (it : iteration) (w : wallet)
    (rest : list wallet) (l : lane) (balance cost : Q) :
  insufficient (view it) balance cost ->
  stop_after_attempt it = false ->
  pass use_priority_fee it w rest l =
    {| wallets := rest ++ [w];
       fee_strategy := fee_strategy l;
       history := history l ++
         [(w, done false (fee_strategy l)
                [LogInsufficientBalance w balance cost])] |}.
Proof.
  intros Hins Hstop. unfold pass.
  rewrite (register_neuron_insufficient _ _ _ _ _ _ _ _ Hins).
  cbn [returned done strategy_after]. rewrite Hstop. reflexivity.
Qed.

(** A pass leaves the tail of the lane in place, possibly followed by the
    wallet it popped. *)
Lemma pass_wallets (use_priority_fee : bool) (it : iteration) (w : wallet)
    (rest : list wallet) (l : lane) :
  exists back,
    wallets (pass use_priority_fee it w rest l) = rest ++ back /\
    history (pass use_priority_fee it w rest l) =
      history l ++ [(w, register_neuron (monitor_now it) (fee_strategy l) w
                          use_priority_fee (view it) (clock it))].
Proof.
  unfold pass. cbn [wallets history].
  match goal with |- context [if ?c then _ else _] => destruct c end.
  - exists [w]. split; reflexivity.
  - exists []. split; [now rewrite app_nil_r | reflexivity].
Qed.

(** The thread only ever extends the record of its passes. *)
Lemma register_thread_extends (use_priority_fee : bool)
    (its : list iteration) (l : lane) :
  exists ext,
    history (register_thread use_priority_fee its l) = history l ++ ext.
Proof.
  revert l. induction its as [| it its IH]; intros l; cbn [register_thread].
  - exists []. now rewrite app_nil_r.
  - destruct (stop_at_head it); [exists []; now rewrite app_nil_r |].
    destruct (wallets l) as [| w rest]; [exists []; now rewrite app_nil_r |].
    destruct (IH (pass use_priority_fee it w rest l)) as [ext Hext].
    destruct (pass_wallets use_priority_fee it w rest l) as [_ [_ Hh]].
    rewrite Hext, Hh, <- app_assoc. eexists. reflexivity.
Qed.

(** While the stop event stays clear, a wallet with [k] wallets ahead of
    it in the lane is the one attempted by the pass number [k] from now. *)
Lemma attempted_in_turn (use_priority_fee : bool) (pre : list wallet) :
  forall (its : list iteration) (l : lane) (w : wallet) (post : list wallet),
    Forall running its ->
    wallets l = pre ++ w :: post ->
    (List.length pre < List.length its)%nat ->
    nth_error (attempted (register_thread use_priority_fee its l))
      (List.length (history l) + List.length pre) = Some w.
Proof.
  induction pre as [| x pre IH]; intros its l w post Hrun Hw Hlen.
  - destruct its as [| it its]; [cbn in Hlen; lia |].
    inversion Hrun as [| ? ? [Hhead _] _]; subst.
    cbn [register_thread]. rewrite Hhead, Hw. cbn [app].
    destruct (register_thread_extends use_priority_fee its
                (pass use_priority_fee it w post l)) as [ext Hext].
    destruct (pass_wallets use_priority_fee it w post l) as [_ [_ Hh]].
    unfold attempted. rewrite Hext, Hh, <- app_assoc, map_app.
    rewrite nth_error_app2 by (rewrite length_map; cbn; lia).
    rewrite length_map. cbn [List.length].
    replace (List.length (history l) + 0 - List.length (history l))%nat
      with 0%nat by lia.
    reflexivity.
  - destruct its as [| it its]; [cbn in Hlen; lia |].
    inversion Hrun as [| ? ? [Hhead _] Hrun']; subst.
    cbn [register_thread]. rewrite Hhead, Hw. cbn [app].
    destruct (pass_wallets use_priority_fee it x (pre ++ w :: post) l)
      as [back [Hwal Hh]].
    rewrite <- app_assoc in Hwal. cbn [app] in Hwal.
    specialize (IH its (pass use_priority_fee it x (pre ++ w :: post) l)
                  w (post ++ back) Hrun' Hwal).
    rewrite Hh, length_app in IH. cbn [List.length] in *.
    replace (List.length (history l) + S (List.length pre))%nat
      with (List.length (history l) + 1 + List.length pre)%nat by lia.
    apply IH. lia.
Qed.

(** C1, amended. An attempt on a wallet whose balance is below the cost
    returns False after logging the insufficient balance, without touching
    the fee strategy.  Unless the stop event is set, the lane then holds
    the other wallets followed by this one; while the stop event stays
    clear, each of the other wallets is attempted in its turn, and after
    them this wallet is attempted again. *)
Theorem insufficient_balance_is_requeued
    (use_priority_fee : bool) (it : iteration) (its : list iteration)
    (w : wallet) (rest : list wallet) (l : lane) (balance cost : Q) :
  insufficient (view it) balance cost ->
  Forall running (it :: its) ->
  wallets l = w :: rest ->
  (List.length rest < List.length its)%nat ->
  let o := register_neuron (monitor_now it) (fee_strategy l) w
             use_priority_fee (view it) (clock it) in
  let l1 := register_thread use_priority_fee [it] l in
  let l' := register_thread use_priority_fee (it :: its) l in
  o = done false (fee_strategy l) [LogInsufficientBalance w balance cost] /\
  wallets l1 = rest ++ [w] /\
  fee_strategy l1 = fee_strategy l /\
  history l1 = history l ++ [(w, o)] /\
  (forall k x,
     nth_error rest k = Some x ->
     nth_error (attempted l') (List.length (history l) + 1 + k) = Some x) /\
  nth_error (attempted l') (List.length (history l) + 1 + List.length rest)
    = Some w.
Proof.
  intros Hins Hrun Hw Hlen o l1 l'. subst o l1 l'.
  inversion Hrun as [| ? ? [Hhead Hafter] Hrun']; subst.
  pose proof (pass_insufficient use_priority_fee it w rest l _ _ Hins Hafter)
    as Hpass.
  rewrite (register_neuron_insufficient _ _ _ _ _ _ _ _ Hins).
  cbn [register_thread]. rewrite Hhead, Hw, Hpass.
  cbn [wallets fee_strategy history].
  split; [reflexivity |]. split; [reflexivity |].
  split; [reflexivity |]. split; [reflexivity |].
  set (lane1 := {| wallets := rest ++ [w];
                   fee_strategy := fee_strategy l;
                   history := history l ++
                     [(w, done false (fee_strategy l)
                            [LogInsufficientBalance w balance cost])] |}).
  assert (Hhist : List.length (history lane1)
                  = (List.length (history l) + 1)%nat).
  { unfold lane1. cbn [history]. rewrite length_app. reflexivity. }
  split.
  - intros k x Hk.
    destruct (nth_error_split _ _ Hk) as [pre [post [Hrest Hpre]]].
    rewrite <- Hhist, <- Hpre.
    apply (attempted_in_turn use_priority_fee pre its lane1 x (post ++ [w]));
      [assumption | |].
    + unfold lane1. cbn [wallets]. rewrite Hrest, <- app_assoc. reflexivity.
    + rewrite Hrest, length_app in Hlen. cbn [List.length] in Hlen. lia.
  - rewrite <- Hhist.
    apply (attempted_in_turn use_priority_fee rest its lane1 w []);
      [assumption | reflexivity | assumption].
Qed.

(** *** A concrete lane *)

Definition alice : wallet := {| coldkey := "cold_a"; hotkey := "hot_a" |}.
Definition bob : wallet := {| coldkey := "cold_b"; hotkey := "hot_b" |}.

(** Not registered, cost 1, balance 0.5. *)
Definition poor_view : chain_view :=
  {| open_handles := Ok tt;
     is_hotkey_registered := Ok false;
     get_burn_cost := Ok (Some 1);
     get_balance := Ok 0.5;
     bt_register := Ok false |}.

(** Already registered. *)
Definition registered_view : chain_view :=
  {| open_handles := Ok tt;
     is_hotkey_registered := Ok true;
     get_burn_cost := Ok (Some 1);
     get_balance := Ok 5;
     bt_register := Ok true |}.

(** A pass during which the stop event is clear and the monitor has not
    seen a block yet. *)
Definition undisturbed (v : chain_view) : iteration :=
  {| stop_at_head := false;
     monitor_now :=
       BlockMonitor.init Config.TAOSTATS_API_KEY Config.SUBSCAN_API_KEY;
     clock := BlockMonitor.seconds 60;
     view := v;
     stop_after_attempt := false |}.

(** The lane as [multi_register] hands it to its worker. *)
Definition fresh_lane (ws : list wallet) : lane :=
  {| wallets := ws;
     fee_strategy :=
       init Config.BASE_PRIORITY_FEE Config.MAX_PRIORITY_FEE 5;
     history := [] |}.

Definition three_passes : list iteration :=
  [undisturbed poor_view; undisturbed registered_view; undisturbed poor_view].

Lemma poor_view_insufficient : insufficient poor_view 0.5 1.
Proof. repeat split. Qed.

Lemma insufficient_balance_is_requeued_witness :
  wallets (register_thread true [undisturbed poor_view]
             (fresh_lane [alice; bob])) = [bob] ++ [alice] /\
  nth_error (attempted (register_thread true three_passes
                          (fresh_lane [alice; bob]))) 2 = Some alice.
Proof.
  destruct (insufficient_balance_is_requeued true
              (undisturbed poor_view)
              [undisturbed registered_view; undisturbed poor_view]
              alice [bob] (fresh_lane [alice; bob]) 0.5 1)
    as [_ [Hlane [_ [_ [_ Hagain]]]]].
  - exact poor_view_insufficient.
  - repeat constructor.
  - reflexivity.
  - cbn. lia.
  - split; [exact Hlane | exact Hagain].
Defined.

(** C1, as stated, fails: the wallet whose balance 0.5 is below the cost
    1 is appended to its lane again after its attempt, and the worker
    attempts it a second time after the other wallet. *)
Lemma insufficient_balance_is_retried :
  insufficient poor_view 0.5 1 /\
  wallets (fresh_lane [alice; bob]) = [alice; bob] /\
  wallets (register_thread true [undisturbed poor_view]
             (fresh_lane [alice; bob])) = [bob; alice] /\
  attempted (register_thread true three_passes (fresh_lane [alice; bob]))
    = [alice; bob; alice] /\
  map (fun p => returned (snd p))
    (history (register_thread true three_passes (fresh_lane [alice; bob])))
    = [Ok false; Ok true; Ok false] /\
  In alice
    (wallets (register_thread true three_passes (fresh_lane [alice; bob]))).
Proof.
  split; [exact poor_view_insufficient |].
  vm_compute. repeat split. left. reflexivity.
Qed.

End RegistrationFacts.

(** * Further properties of the window computation *)

Module WindowFacts.

Import BlockMonitor BlockMonitorFacts.
Local Open Scope Z_scope.

(** The running minimum and maximum that [Py.min] and [Py.max] fold. *)
Lemma fold_min_spec (rest : list Z) (x : Z) :
  let r := fold_left (fun acc y => if y <? acc then y else acc) rest x in
  In r (x :: rest) /\ forall y, In y (x :: rest) -> r <= y.
Proof.
  revert x. induction rest as [| z rest IH]; intros x; cbn [fold_left].
  - split; [left; reflexivity | intros y [<- | []]; lia].
  - destruct (IH (if z <? x then z else x)) as [Hin Hle].
    destruct (Z.ltb_spec z x) as [Hzx | Hzx].
    + split.
      * destruct Hin as [<- | Hin]; [right; left; reflexivity | right; right; exact Hin].
      * intros y [<- | [<- | Hy]].
        -- specialize (Hle z (or_introl eq_refl)). lia.
        -- apply Hle. left. reflexivity.
        -- apply Hle. right. exact Hy.
    + split.
      * destruct Hin as [<- | Hin]; [left; reflexivity | right; right; exact Hin].
      * intros y [<- | [<- | Hy]].
        -- apply Hle. left. reflexivity.
        -- specialize (Hle x (or_introl eq_refl)). lia.
        -- apply Hle. right. exact Hy.
Qed.

Lemma fold_max_spec (rest : list Z) (x : Z) :
  let r := fold_left (fun acc y => if y >? acc then y else acc) rest x in
  In r (x :: rest) /\ forall y, In y (x :: rest) -> y <= r.
Proof.
  revert x. induction rest as [| z rest IH]; intros x; cbn [fold_left].
  - split; [left; reflexivity | intros y [<- | []]; lia].
  - destruct (IH (if z >? x then z else x)) as [Hin Hle].
    destruct (Z.gtb_spec z x) as [Hzx | Hzx].
    + split.
      * destruct Hin as [<- | Hin]; [right; left; reflexivity | right; right; exact Hin].
      * intros y [<- | [<- | Hy]].
        -- specialize (Hle z (or_introl eq_refl)). lia.
        -- apply Hle. left. reflexivity.
        -- apply Hle. right. exact Hy.
    + split.
      * destruct Hin as [<- | Hin]; [left; reflexivity | right; right; exact Hin].
      * intros y [<- | [<- | Hy]].
        -- apply Hle. left. reflexivity.
        -- specialize (Hle x (or_introl eq_refl)). lia.
        -- apply Hle. right. exact Hy.
Qed.

Lemma min_spec (xs : list Z) (r : Z) :
  Py.min xs = Ok r -> In r xs /\ forall y, In y xs -> r <= y.
Proof.
  destruct xs as [| x rest]; [discriminate |].
  cbn [Py.min]. intros [= <-]. apply fold_min_spec.
Qed.

Lemma max_spec (xs : list Z) (r : Z) :
  Py.max xs = Ok r -> In r xs /\ forall y, In y xs -> y <= r.
Proof.
  destruct xs as [| x rest]; [discriminate |].
  cbn [Py.max]. intros [= <-]. apply fold_max_spec.
Qed.

(** The forward distance to an eligible offset other than the current one
    is between 1 and tempo - 1, and walking it lands on that offset. *)
Lemma forward_distance_lands (tempo h w : Z) :
  0 < tempo -> 0 <= w < tempo -> w <> h mod tempo ->
  let d := forward_distance tempo (h mod tempo) w in
  1 <= d < tempo /\ (h + d) mod tempo = w.
Proof.
  intros Ht Hw Hne d. subst d.
  pose proof (Z.mod_pos_bound h tempo Ht) as Hb.
  unfold forward_distance.
  destruct (Z.gtb_spec w (h mod tempo)) as [Hgt | Hle].
  - split; [lia |].
    rewrite <- Zplus_mod_idemp_l.
    replace (h mod tempo + (w - h mod tempo)) with w by lia.
    now apply Z.mod_small.
  - split; [lia |].
    rewrite <- Zplus_mod_idemp_l.
    replace (h mod tempo + (tempo - h mod tempo + w)) with (w + 1 * tempo) by lia.
    rewrite Z_mod_plus_full. now apply Z.mod_small.
Qed.

(** Conversely, an eligible offset reached after [k] blocks, with
    0 < k < tempo, is at forward distance [k]. *)
Lemma forward_distance_of_reached (tempo h k : Z) :
  0 < tempo -> 0 < k < tempo ->
  forward_distance tempo (h mod tempo) ((h + k) mod tempo) = k.
Proof.
  intros Ht Hk.
  pose proof (Z.mod_pos_bound h tempo Ht) as Hb.
  rewrite <- (Zplus_mod_idemp_l h k tempo).
  unfold forward_distance.
  destruct (Z_lt_ge_dec (h mod tempo + k) tempo) as [Hsmall | Hbig].
  - rewrite (Z.mod_small (h mod tempo + k)) by lia.
    destruct (Z.gtb_spec (h mod tempo + k) (h mod tempo)); lia.
  - assert (Hwrap : (h mod tempo + k) mod tempo = h mod tempo + k - tempo).
    { symmetry. apply (Z.mod_unique _ _ 1); lia. }
    rewrite Hwrap.
    destruct (Z.gtb_spec (h mod tempo + k - tempo) (h mod tempo)); lia.
Qed.

(** X1. Outside the window, for every tempo > 0 and non-empty window inside
    [0, tempo), the reported [next_window] is the number of blocks to the
    next eligible block: it is between 1 and tempo - 1, the block that many
    blocks ahead is eligible, and no block before it is. *)
Theorem next_window_is_distance_to_next_eligible (m : monitor) (h : Z) :
  0 < tempo m ->
  block_window m <> [] ->
  Forall (fun w => 0 <= w < tempo m) (block_window m) ->
  ~ In (h mod tempo m) (block_window m) ->
  exists n,
    _get_window_info m (Some h) = Ok (InfoWaiting (h mod tempo m) n) /\
    1 <= n < tempo m /\
    In ((h + n) mod tempo m) (block_window m) /\
    forall k, 0 < k < n -> ~ In ((h + k) mod tempo m) (block_window m).
Proof.
  intros Ht Hne Hsub Hout.
  rewrite Forall_forall in Hsub.
  assert (Hc : Py.contains (h mod tempo m) (block_window m) = false).
  { destruct (Py.contains (h mod tempo m) (block_window m)) eqn:E;
      [apply contains_In in E; contradiction | reflexivity]. }
  assert (Hd : map (forward_distance (tempo m) (h mod tempo m)) (block_window m) <> []).
  { destruct (block_window m); [congruence | discriminate]. }
  destruct (min_nonempty _ Hd) as [n Hn].
  destruct (min_spec _ _ Hn) as [Hin Hmin].
  apply in_map_iff in Hin. destruct Hin as [w0 [Hw0 Hw0in]].
  assert (Hw0ne : w0 <> h mod tempo m) by (intros ->; contradiction).
  destruct (forward_distance_lands (tempo m) h w0 Ht (Hsub _ Hw0in) Hw0ne)
    as [Hrange Hland].
  rewrite Hw0 in Hrange, Hland.
  exists n. split; [| split; [exact Hrange | split]].
  - unfold _get_window_info. rewrite (mod_nonzero h (tempo m)) by lia.
    cbn [bind]. rewrite Hc, Hn. reflexivity.
  - rewrite Hland. exact Hw0in.
  - intros k Hk Hreach.
    assert (Hdist : forward_distance (tempo m) (h mod tempo m)
                      ((h + k) mod tempo m) = k)
      by (apply forward_distance_of_reached; lia).
    assert (n <= k); [| lia].
    apply Hmin. apply in_map_iff.
    exists ((h + k) mod tempo m). split; assumption.
Qed.

Lemma next_window_is_distance_to_next_eligible_witness :
  exists n,
    _get_window_info (init None None) (Some 365)
      = Ok (InfoWaiting (365 mod 360) n) /\
    1 <= n < 360 /\
    In ((365 + n) mod 360) (Py.range 10 60) /\
    forall k, 0 < k < n -> ~ In ((365 + k) mod 360) (Py.range 10 60).
Proof.
  apply (next_window_is_distance_to_next_eligible (init None None) 365).
  - reflexivity.
  - discriminate.
  - vm_compute. repeat (constructor; [split; [discriminate | reflexivity] |]).
    constructor.
  - rewrite <- contains_In. vm_compute. discriminate.
Defined.

(** X2. Inside the window the reported [blocks_left] is never zero or
    negative.  Before the largest eligible offset it is the number of
    blocks to that offset; at the largest eligible offset it is
    max - min + tempo. *)
Theorem blocks_left_is_positive (m : monitor) (h : Z) :
  0 < tempo m ->
  Forall (fun w => 0 <= w < tempo m) (block_window m) ->
  In (h mod tempo m) (block_window m) ->
  exists left mx mn,
    Py.max (block_window m) = Ok mx /\
    Py.min (block_window m) = Ok mn /\
    _get_window_info m (Some h) = Ok (InfoActive (h mod tempo m) left) /\
    1 <= left /\
    (h mod tempo m < mx ->
       left = mx - h mod tempo m /\ (h + left) mod tempo m = mx) /\
    (h mod tempo m = mx -> left = mx - mn + tempo m).
Proof.
  intros Ht Hsub Hin.
  rewrite Forall_forall in Hsub.
  assert (Hne : block_window m <> []) by (intros E; rewrite E in Hin; exact Hin).
  destruct (max_nonempty _ Hne) as [mx Hmx].
  destruct (min_nonempty _ Hne) as [mn Hmn].
  destruct (max_spec _ _ Hmx) as [Hmxin Hmxle].
  destruct (min_spec _ _ Hmn) as [Hmnin Hmnle].
  pose proof (Hmxle _ Hin) as Hbit.
  pose proof (Hmnle _ Hmxin) as Hspan.
  apply contains_In in Hin.
  unfold _get_window_info. rewrite (mod_nonzero h (tempo m)) by lia.
  cbn [bind]. rewrite Hin, Hmx. cbn [bind].
  destruct (Z.leb_spec (mx - h mod tempo m) 0) as [Hlast | Hmore].
  - rewrite Hmn. cbn [bind].
    exists (mx - mn + tempo m), mx, mn.
    repeat split; try reflexivity; lia.
  - exists (mx - h mod tempo m), mx, mn.
    repeat split; try reflexivity; try assumption; try lia.
    rewrite <- Zplus_mod_idemp_l.
    replace (h mod tempo m + (mx - h mod tempo m)) with mx by lia.
    apply Z.mod_small. apply Hsub. exact Hmxin.
Qed.

Lemma blocks_left_is_positive_witness :
  exists left mx mn,
    Py.max (Py.range 10 60) = Ok mx /\
    Py.min (Py.range 10 60) = Ok mn /\
    _get_window_info (init None None) (Some 3620)
      = Ok (InfoActive (3620 mod 360) left) /\
    1 <= left /\
    (3620 mod 360 < mx ->
       left = mx - 3620 mod 360 /\ (3620 + left) mod 360 = mx) /\
    (3620 mod 360 = mx -> left = mx - mn + 360).
Proof.
  apply (blocks_left_is_positive (init None None) 3620).
  - reflexivity.
  - vm_compute. repeat (constructor; [split; [discriminate | reflexivity] |]).
    constructor.
  - rewrite <- contains_In. vm_compute. reflexivity.
Defined.

End WindowFacts.

(** * Properties of polling *)

Module PollingFacts.

Import BlockMonitor BlockMonitorFacts.
Local Open Scope Z_scope.

(** The height an exchange delivers: status 200 and a block number. *)
Definition accepted (r : option response) : option Z :=
  match r with
  | Some resp => if status_code resp =? 200 then block_field resp else None
  | None => None
  end.

(** The monitor after a probe has stored height [b] at time [now]. *)
Definition stored (m : monitor) (b now : Z) : monitor :=
  {| current_block := Some b;
     last_updated := now;
     taostats_api_key := taostats_api_key m;
     subscan_api_key := subscan_api_key m;
     tempo := tempo m;
     block_window := block_window m |}.

(** Which of the five sources a monitor can use: the first two need a key. *)
Definition sources_enabled (m : monitor) : list bool :=
  [ Py.truthy_str (taostats_api_key m);
    Py.truthy_str (subscan_api_key m);
    true; true; true ].

(** The first height delivered, in the order of the sources, by a source
    that is enabled, with the time of that exchange. *)
Fixpoint first_answer (enabled : list bool) (feed : list (option response * Z))
  : option (Z * Z) :=
  match enabled, feed with
  | en :: enabled', (r, now) :: feed' =>
      match (if en then accepted r else None) with
      | Some b => Some (b, now)
      | None => first_answer enabled' feed'
      end
  | _, _ => None
  end.

(** Successive polling ticks, each with its own feed. *)
Definition ticks (feeds : list (list (option response * Z))) (m : monitor)
  : monitor :=
  fold_left (fun m' feed => tick feed m') feeds m.

Lemma window_info_raises (m : monitor) (b : Z) :
  tempo m = 0 \/ block_window m = [] ->
  exists e, _get_window_info m (Some b) = Raise e.
Proof.
  intros H. unfold _get_window_info, Py.mod_.
  destruct (tempo m =? 0) eqn:Et; [eexists; reflexivity |].
  destruct H as [H | H]; [apply Z.eqb_neq in Et; contradiction |].
  rewrite H. cbn. eexists. reflexivity.
Qed.

Lemma accept_response_misconfigured (m : monitor) (r : option response) (now : Z) :
  tempo m = 0 \/ block_window m = [] ->
  current_block m = None ->
  accept_response m r now = (false, m).
Proof.
  intros Hbad Hnone. unfold accept_response. rewrite Hnone.
  destruct r as [resp |]; [| reflexivity].
  destruct (status_code resp =? 200); [| reflexivity].
  destruct (block_field resp) as [b |]; [| reflexivity].
  destruct (window_info_raises m b Hbad) as [e ->]. reflexivity.
Qed.

Lemma tick_misconfigured (m : monitor) (feed : list (option response * Z)) :
  tempo m = 0 \/ block_window m = [] ->
  current_block m = None ->
  tick feed m = m.
Proof.
  intros Hbad Hnone. unfold tick, methods.
  pose proof (fun r now => accept_response_misconfigured m r now Hbad Hnone) as Hacc.
  assert (Hkeyed1 : forall r now, _check_via_taostats m r now = (false, m)).
  { intros r now. unfold _check_via_taostats.
    destruct (negb _); [reflexivity | apply Hacc]. }
  assert (Hkeyed2 : forall r now, _check_via_subscan m r now = (false, m)).
  { intros r now. unfold _check_via_subscan.
    destruct (negb _); [reflexivity | apply Hacc]. }
  unfold _check_via_polkadot_subscan, _check_via_bittensor_dashboard,
    _check_via_finney_explorer.
  repeat (destruct feed as [| [? ?] feed]; cbn [poll];
          rewrite ?Hkeyed1, ?Hkeyed2, ?Hacc; try reflexivity).
Qed.

(** X3. A monitor whose tempo is zero or whose window is empty never
    records a first height: starting with an empty cache, any number of
    polling ticks, whatever the sources answer, leaves it as it was, so
    [get_current_block] stays (None, None). *)
Theorem misconfigured_monitor_never_stores
    (m : monitor) (feeds : list (list (option response * Z))) (now : Z) :
  tempo m = 0 \/ block_window m = [] ->
  current_block m = None ->
  ticks feeds m = m /\
  get_current_block (ticks feeds m) now = Ok (None, None).
Proof.
  intros Hbad Hnone.
  assert (Hsame : ticks feeds m = m).
  { unfold ticks. induction feeds as [| feed feeds IH]; [reflexivity |].
    cbn [fold_left]. rewrite (tick_misconfigured m feed Hbad Hnone). exact IH. }
  split; [exact Hsame |].
  rewrite Hsame. unfold get_current_block. now rewrite Hnone.
Qed.

(** A monitor constructed with an empty window. *)
Definition windowless : monitor :=
  {| current_block := None;
     last_updated := datetime_min;
     taostats_api_key := Config.TAOSTATS_API_KEY;
     subscan_api_key := Config.SUBSCAN_API_KEY;
     tempo := Config.TEMPO;
     block_window := [] |}.

Definition answer (b : Z) : option response :=
  Some {| status_code := 200; block_field := Some b |}.

Lemma misconfigured_monitor_never_stores_witness :
  ticks [[(answer 4000, seconds 1)]; [(None, seconds 6); (answer 4001, seconds 7)]]
    windowless = windowless /\
  get_current_block
    (ticks [[(answer 4000, seconds 1)]; [(None, seconds 6); (answer 4001, seconds 7)]]
       windowless) (seconds 8) = Ok (None, None).
Proof.
  apply (misconfigured_monitor_never_stores windowless
           [[(answer 4000, seconds 1)]; [(None, seconds 6); (answer 4001, seconds 7)]]
           (seconds 8)).
  - right. reflexivity.
  - reflexivity.
Defined.

Lemma accept_response_configured (m : monitor) (r : option response) (now : Z) :
  tempo m <> 0 -> block_window m <> [] ->
  accept_response m r now =
    match accepted r with
    | Some b => (true, stored m b now)
    | None => (false, m)
    end.
Proof.
  intros Ht Hw. unfold accept_response, accepted.
  destruct r as [resp |]; [| reflexivity].
  destruct (status_code resp =? 200); [| reflexivity].
  destruct (block_field resp) as [b |]; [| reflexivity].
  destruct (window_info_shape m b Ht Hw) as [wi [-> _]].
  destruct (match current_block m with
            | Some old => old =? b
            | None => false
            end); reflexivity.
Qed.

(** A probe behaves as the source it reads, enabled or not. *)
Definition reads (m : monitor) (p : probe) (en : bool) : Prop :=
  forall r now,
    p m r now =
      match (if en then accepted r else None) with
      | Some b => (true, stored m b now)
      | None => (false, m)
      end.

Lemma poll_first_answer (m : monitor) (ps : list probe) (ens : list bool) :
  Forall2 (reads m) ps ens ->
  forall feed,
    poll ps feed m =
      match first_answer ens feed with
      | Some (b, now) => stored m b now
      | None => m
      end.
Proof.
  induction 1 as [| p en ps ens Hp _ IH]; intros feed.
  - destruct feed; reflexivity.
  - destruct feed as [| [r now] feed']; [reflexivity |].
    cbn [poll first_answer]. rewrite (Hp r now).
    destruct (if en then accepted r else None); [reflexivity | apply IH].
Qed.

Lemma methods_read_sources (m : monitor) :
  tempo m <> 0 -> block_window m <> [] ->
  Forall2 (reads m) methods (sources_enabled m).
Proof.
  intros Ht Hw.
  pose proof (fun r now => accept_response_configured m r now Ht Hw) as Hacc.
  unfold methods, sources_enabled.
  repeat constructor; intros r now.
  - unfold _check_via_taostats.
    destruct (Py.truthy_str (taostats_api_key m)); [apply Hacc | reflexivity].
  - unfold _check_via_subscan.
    destruct (Py.truthy_str (subscan_api_key m)); [apply Hacc | reflexivity].
  - apply Hacc.
  - apply Hacc.
  - apply Hacc.
Qed.

(** X4. One polling tick of a monitor with a nonzero tempo and a non-empty
    window stores the height of the first source, in the order taostats,
    subscan, polkadot, dashboard, explorer, that is enabled (the first two
    need their API key) and answers 200 with a block number, stamped with
    the time of that exchange; sources after it are not consulted, and if
    none answers the monitor is left as it was. *)
Theorem tick_stores_first_answer
    (m : monitor) (feed : list (option response * Z)) :
  tempo m <> 0 ->
  block_window m <> [] ->
  tick feed m =
    match first_answer (sources_enabled m) feed with
    | Some (b, now) => stored m b now
    | None => m
    end.
Proof.
  intros Ht Hw. unfold tick.
  apply poll_first_answer. now apply methods_read_sources.
Qed.

(** A tick in which taostats times out, subscan answers 503, the public
    source answers 4321 and the dashboard would answer 9999. *)
Definition mixed_feed : list (option response * Z) :=
  [ (None, seconds 1);
    (Some {| status_code := 503; block_field := None |}, seconds 2);
    (answer 4321, seconds 3);
    (answer 9999, seconds 4) ].

Lemma tick_stores_first_answer_witness :
  tick mixed_feed (init Config.TAOSTATS_API_KEY Config.SUBSCAN_API_KEY) =
    match first_answer
            (sources_enabled (init Config.TAOSTATS_API_KEY Config.SUBSCAN_API_KEY))
            mixed_feed with
    | Some (b, now) =>
        stored (init Config.TAOSTATS_API_KEY Config.SUBSCAN_API_KEY) b now
    | None => init Config.TAOSTATS_API_KEY Config.SUBSCAN_API_KEY
    end.
Proof.
  apply (tick_stores_first_answer
           (init Config.TAOSTATS_API_KEY Config.SUBSCAN_API_KEY) mixed_feed);
    discriminate.
Defined.

(** X5. A height delivered by a polling tick at time [t] is what
    [get_current_block] reports, with its window dictionary, at every time
    less than ten seconds after [t], and from ten seconds after [t] on the
    answer is (None, None) until another tick succeeds. *)
Theorem stored_height_is_reported_for_ten_seconds
    (m : monitor) (feed : list (option response * Z)) (b t now : Z) :
  tempo m <> 0 ->
  block_window m <> [] ->
  first_answer (sources_enabled m) feed = Some (b, t) ->
  exists wi,
    _get_window_info m (Some b) = Ok wi /\
    (now - t < seconds 10 ->
       get_current_block (tick feed m) now = Ok (Some b, Some wi)) /\
    (seconds 10 <= now - t ->
       get_current_block (tick feed m) now = Ok (None, None)).
Proof.
  intros Ht Hw Hfirst.
  unfold tick.
  rewrite (poll_first_answer m methods (sources_enabled m)
             (methods_read_sources m Ht Hw) feed), Hfirst.
  destruct (window_info_shape m b Ht Hw) as [wi [Hwi _]].
  exists wi. split; [exact Hwi |].
  unfold get_current_block. cbn [stored current_block last_updated].
  assert (Hwi' : _get_window_info (stored m b t) (Some b) = Ok wi) by exact Hwi.
  split; intros Hage.
  - apply Z.ltb_lt in Hage. rewrite Hage, Hwi'. reflexivity.
  - destruct (Z.ltb_spec (now - t) (seconds 10)); [lia | reflexivity].
Qed.

Lemma stored_height_is_reported_for_ten_seconds_witness :
  exists wi,
    _get_window_info (init Config.TAOSTATS_API_KEY Config.SUBSCAN_API_KEY)
      (Some 4321) = Ok wi /\
    (seconds 12 - seconds 3 < seconds 10 ->
       get_current_block
         (tick mixed_feed (init Config.TAOSTATS_API_KEY Config.SUBSCAN_API_KEY))
         (seconds 12) = Ok (Some 4321, Some wi)) /\
    (seconds 10 <= seconds 12 - seconds 3 ->
       get_current_block
         (tick mixed_feed (init Config.TAOSTATS_API_KEY Config.SUBSCAN_API_KEY))
         (seconds 12) = Ok (None, None)).
Proof.
  apply (stored_height_is_reported_for_ten_seconds
           (init Config.TAOSTATS_API_KEY Config.SUBSCAN_API_KEY)
           mixed_feed 4321 (seconds 3) (seconds 12)).
  - discriminate.
  - discriminate.
  - reflexivity.
Defined.

End PollingFacts.

(** * Further properties of the fee strategy *)

Module FeeStatisticsFacts.

Import FeeStrategy FeeStrategyFacts.
Local Open Scope Q_scope.

(** The outcomes a call sequence records, in order. *)
Definition outcomes (cs : list call) : list bool :=
  flat_map (fun c => match c with
                     | UpdateStatistics (Some b) _ => [b]
                     | _ => []
                     end) cs.

(** How many of them are successes. *)
Definition wins (bs : list bool) : Z :=
  Z.of_nat (List.length (filter (fun b => b) bs)).

Lemma wins_cons (b : bool) (bs : list bool) :
  wins (b :: bs) = ((if b then 1 else 0) + wins bs)%Z.
Proof. unfold wins. destruct b; cbn [filter List.length]; lia. Qed.

Lemma wins_bounds (bs : list bool) :
  (0 <= wins bs <= Z.of_nat (List.length bs))%Z.
Proof.
  induction bs as [| b bs IH]; [cbn; lia |].
  rewrite wins_cons. cbn [List.length]. destruct b; lia.
Qed.

Lemma run_counts (cs : list call) (s : strategy) :
  (0 <= attempts s)%Z ->
  exists s',
    run s cs = Ok s' /\
    attempts s' = (attempts s + Z.of_nat (List.length (outcomes cs)))%Z /\
    successes s' = (successes s + wins (outcomes cs))%Z /\
    (outcomes cs = [] -> success_rate s' = success_rate s) /\
    (outcomes cs <> [] ->
       success_rate s' = inject_Z (successes s') / inject_Z (attempts s')).
Proof.
  revert s. induction cs as [| c cs IH]; intros s Ha.
  - exists s. cbn. repeat split; try lia. congruence.
  - destruct c as [[b |] block_time | base_cost].
    + destruct (record_outcome_total s b Ha) as [s1 [Hrec [Hatt _]]].
      assert (Hsucc : successes s1
                      = (successes s + (if b then 1 else 0))%Z).
      { unfold record_outcome in Hrec.
        rewrite true_div_ok in Hrec by lia.
        cbn [bind] in Hrec. injection Hrec as <-. cbn. destruct b; lia. }
      assert (Hrate : success_rate s1
                      = inject_Z (successes s1) / inject_Z (attempts s1)).
      { unfold record_outcome in Hrec.
        rewrite true_div_ok in Hrec by lia.
        cbn [bind] in Hrec. injection Hrec as <-. reflexivity. }
      set (s2 := match block_time with
                 | Some t => record_timing s1 t
                 | None => s1
                 end).
      assert (Hs2 : attempts s2 = attempts s1 /\ successes s2 = successes s1
                    /\ success_rate s2 = success_rate s1).
      { subst s2. destruct block_time; repeat split. }
      destruct Hs2 as [Ha2 [Hs2 Hr2]].
      destruct (IH s2) as [s' [Hrun [Hatt' [Hsucc' [Hnil Hcons]]]]];
        [lia |].
      exists s'. split.
      { cbn [run step]. unfold update_statistics. rewrite Hrec.
        cbn [bind]. exact Hrun. }
      cbn [outcomes flat_map app]. fold (outcomes cs).
      rewrite wins_cons. cbn [List.length].
      split; [lia |]. split; [lia |].
      split; [discriminate |]. intros _.
      destruct (outcomes cs) as [| b' bs'] eqn:Ho.
      * rewrite (Hnil eq_refl), Hr2, Hrate.
        cbn [List.length] in Hatt'. unfold wins in Hsucc'. cbn in Hsucc'.
        replace (successes s') with (successes s1) by lia.
        replace (attempts s') with (attempts s1) by lia.
        reflexivity.
      * apply Hcons. discriminate.
    + set (s2 := match block_time with
                 | Some t => record_timing s t
                 | None => s
                 end).
      assert (Hs2 : attempts s2 = attempts s /\ successes s2 = successes s
                    /\ success_rate s2 = success_rate s).
      { subst s2. destruct block_time; repeat split. }
      destruct Hs2 as [Ha2 [Hs2 Hr2]].
      destruct (IH s2) as [s' [Hrun [Hatt' [Hsucc' [Hnil Hcons]]]]];
        [lia |].
      exists s'. split; [exact Hrun |].
      cbn [outcomes flat_map app]. fold (outcomes cs).
      split; [lia |]. split; [lia |].
      split; [| exact Hcons].
      intros Ho. rewrite (Hnil Ho). exact Hr2.
    + destruct (IH (snd (compute_priority_fee s base_cost)))
        as [s' [Hrun [Hatt' [Hsucc' [Hnil Hcons]]]]]; [exact Ha |].
      exists s'. split; [exact Hrun |].
      cbn [outcomes flat_map app]. fold (outcomes cs).
      cbn [compute_priority_fee snd attempts successes success_rate] in *.
      repeat split; assumption.
Qed.

(** X6. After every sequence of calls on a freshly constructed strategy,
    [attempts] is the number of outcomes recorded and [successes] the
    number of successful ones; before the first outcome the success rate is
    the initial 0.5, and afterwards it is successes / attempts, a value
    between 0 and 1. *)
Theorem counters_count_outcomes
    (base max : Q) (threshold : Z) (cs : list call) :
  exists s,
    run (init base max threshold) cs = Ok s /\
    attempts s = Z.of_nat (List.length (outcomes cs)) /\
    successes s = wins (outcomes cs) /\
    (0 <= successes s <= attempts s)%Z /\
    (outcomes cs = [] -> success_rate s = 0.5) /\
    (outcomes cs <> [] ->
       success_rate s = inject_Z (successes s) / inject_Z (attempts s) /\
       0 <= success_rate s <= 1).
Proof.
  destruct (run_counts cs (init base max threshold))
    as [s [Hrun [Hatt [Hsucc [Hnil Hcons]]]]]; [cbn; lia |].
  cbn [init attempts successes success_rate] in Hatt, Hsucc, Hnil.
  rewrite Z.add_0_l in Hatt, Hsucc.
  pose proof (wins_bounds (outcomes cs)) as Hb.
  exists s. split; [exact Hrun |]. split; [exact Hatt |].
  split; [exact Hsucc |]. split; [lia |]. split; [exact Hnil |].
  intros Hne. specialize (Hcons Hne). split; [exact Hcons |].
  assert (Hpos : (0 < attempts s)%Z).
  { rewrite Hatt. destruct (outcomes cs); [congruence | cbn; lia]. }
  assert (HposQ : 0 < inject_Z (attempts s)).
  { change 0 with (inject_Z 0). rewrite <- Zlt_Qlt. exact Hpos. }
  rewrite Hcons. split.
  - apply Qle_shift_div_l; [exact HposQ |].
    rewrite Qmult_0_l. change 0 with (inject_Z 0).
    rewrite <- Zle_Qle. lia.
  - apply Qle_shift_div_r; [exact HposQ |].
    rewrite Qmult_1_l. rewrite <- Zle_Qle. lia.
Qed.

(** X7. With the default parameters the caps of the two upper tiers are
    never reached: after every sequence of calls the adaptive multiplier is
    1.5 + 0.5 * congestion when the success rate is below 0.2,
    1.0 + 0.3 * congestion when it is below 0.5, and 0.5 + 0.2 * congestion
    otherwise, so the three tiers price in the disjoint ranges [1.5, 2.0],
    [1.0, 1.3] and [0.5, 0.7]. *)
Theorem default_tiers_are_disjoint (cs : list call) :
  exists s,
    run default cs = Ok s /\
    let c := block_congestion s in
    0 <= c <= 1 /\
    (success_rate s < 0.2 ->
       modifier s == 1.5 + 0.5 * c /\ 1.5 <= modifier s <= 2.0) /\
    (0.2 <= success_rate s -> success_rate s < 0.5 ->
       modifier s == 1.0 + 0.3 * c /\ 1.0 <= modifier s <= 1.3) /\
    (0.5 <= success_rate s ->
       modifier s == 0.5 + 0.2 * c /\ 0.5 <= modifier s <= 0.7).
Proof.
  destruct (run_preserves cs default (init_well_formed _ _ _))
    as [s [Hrun [_ [[Hb [Hm _]] Hc]]]].
  specialize (Hc (init_congestion_in_range _ _ _)).
  change (base_multiplier default) with 0.5 in Hb.
  change (max_multiplier default) with 2.0 in Hm.
  destruct Hc as [Hc0 Hc1].
  exists s. split; [exact Hrun |]. cbv zeta.
  split; [split; assumption |].
  unfold modifier. rewrite Hb, Hm.
  split; [| split].
  - intros Hlow. apply ltb_lt in Hlow. rewrite Hlow.
    destruct (min2_cases 2.0 (2.0 - 0.5 + block_congestion s * 0.5))
      as [[-> H] | [-> H]]; split; lra.
  - intros Hge Hlt. apply ltb_ge in Hge. apply ltb_lt in Hlt.
    rewrite Hge, Hlt.
    destruct (min2_cases (2.0 - 0.2) (0.5 + 0.5 + block_congestion s * 0.3))
      as [[-> H] | [-> H]]; split; lra.
  - intros Hge.
    assert (H2 : 0.2 <= success_rate s) by lra.
    apply ltb_ge in Hge. apply ltb_ge in H2. rewrite H2, Hge.
    split; lra.
Qed.

(** *** The history as a window over the fees returned *)

(** The fees that the [ComputePriorityFee] calls of a sequence return. *)
Fixpoint fees_returned (s : strategy) (cs : list call) : list Q :=
  match cs with
  | [] => []
  | c :: cs' =>
      match c with
      | ComputePriorityFee base_cost => [fst (compute_priority_fee s base_cost)]
      | UpdateStatistics _ _ => []
      end ++
      match step s c with
      | Ok s' => fees_returned s' cs'
      | Raise _ => []
      end
  end.

(** The last [k] items of a list. *)
Definition lastn {A : Type} (k : nat) (l : list A) : list A :=
  skipn (List.length l - k) l.

Lemma lastn_short {A : Type} (k : nat) (l : list A) :
  (List.length l <= k)%nat -> lastn k l = l.
Proof.
  intros H. unfold lastn.
  replace (List.length l - k)%nat with 0%nat by lia. reflexivity.
Qed.

Lemma lastn_app_lastn {A : Type} (k : nat) (a b : list A) :
  lastn k (lastn k a ++ b) = lastn k (a ++ b).
Proof.
  destruct (Nat.le_gt_cases (List.length a) k) as [Hshort | Hlong].
  - now rewrite (lastn_short k a Hshort).
  - unfold lastn. rewrite !length_app, length_skipn.
    replace (List.length a - (List.length a - k) + List.length b - k)%nat
      with (List.length b) by lia.
    replace (List.length a + List.length b - k)%nat
      with (List.length b + (List.length a - k))%nat by lia.
    rewrite <- skipn_skipn. f_equal.
    rewrite skipn_app.
    replace (List.length a - k - List.length a)%nat with 0%nat by lia.
    reflexivity.
Qed.

Lemma remember_lastn (fees : list Q) (fee : Q) :
  (List.length fees <= 10)%nat ->
  remember fees fee = lastn 10 (fees ++ [fee]).
Proof.
  intros Hlen.
  destruct (remember_spec fees fee Hlen) as [_ [Hlt Heq]].
  destruct (Nat.eq_dec (List.length fees) 10) as [Hten | Hless].
  - destruct (Heq Hten) as [oldest [rest [-> ->]]].
    unfold lastn. rewrite length_app. cbn [List.length] in *.
    replace (S (List.length rest) + 1 - 10)%nat with 1%nat by lia.
    reflexivity.
  - rewrite Hlt by lia. symmetry. apply lastn_short.
    rewrite length_app. cbn [List.length]. lia.
Qed.

Lemma last_nonempty {A : Type} (x : A) (l : list A) (d d' : A) :
  last (x :: l) d = last (x :: l) d'.
Proof.
  revert x. induction l as [| y l IH]; intros x; [reflexivity |].
  change (last (y :: l) d = last (y :: l) d'). apply IH.
Qed.

Lemma run_history (cs : list call) (s : strategy) :
  well_formed s ->
  exists s',
    run s cs = Ok s' /\
    recent_fees s' = lastn 10 (recent_fees s ++ fees_returned s cs) /\
    last_fee s' = last (map Some (fees_returned s cs)) (last_fee s).
Proof.
  revert s. induction cs as [| c cs IH]; intros s Hwf.
  - exists s. cbn [run fees_returned map last]. rewrite app_nil_r.
    repeat split. symmetry. apply lastn_short. apply Hwf.
  - destruct (step_preserves s c Hwf) as [s1 [Hstep [Hwf1 _]]].
    destruct (IH s1 Hwf1) as [s' [Hrun [Hfees Hlast]]].
    exists s'. cbn [run fees_returned]. rewrite Hstep. cbn [bind].
    split; [exact Hrun |].
    destruct c as [success block_time | base_cost].
    + assert (Hsame : recent_fees s1 = recent_fees s /\ last_fee s1 = last_fee s).
      { cbn [step] in Hstep. unfold update_statistics in Hstep.
        destruct success as [b |].
        - unfold record_outcome in Hstep.
          destruct (true_div _ _); cbn [bind] in Hstep; [| discriminate].
          injection Hstep as <-. destruct block_time; split; reflexivity.
        - cbn [bind] in Hstep. injection Hstep as <-.
          destruct block_time; split; reflexivity. }
      destruct Hsame as [Hf Hl]. cbn [app].
      rewrite Hfees, Hlast, Hf, Hl. split; reflexivity.
    + cbn [step] in Hstep. injection Hstep as <-.
      cbn [compute_priority_fee snd fst recent_fees last_fee] in *.
      split.
      * rewrite Hfees, (remember_lastn _ _ (proj2 Hwf)).
        rewrite lastn_app_lastn, <- app_assoc. reflexivity.
      * rewrite Hlast. cbn [app map].
        destruct (map Some (fees_returned _ cs)) as [| x l];
          [reflexivity |].
        change (last (Some (priced s base_cost) :: x :: l) (last_fee s))
          with (last (x :: l) (last_fee s)).
        apply last_nonempty.
Qed.

(** X8. After every sequence of calls on a freshly constructed strategy
    the history is exactly the last ten fees that [compute_priority_fee]
    returned, oldest first, and [last_fee] is the newest of them (None when
    no fee was computed yet). *)
Theorem history_is_last_ten_fees
    (base max : Q) (threshold : Z) (cs : list call) :
  exists s,
    run (init base max threshold) cs = Ok s /\
    recent_fees s = lastn 10 (fees_returned (init base max threshold) cs) /\
    last_fee s = last (map Some (fees_returned (init base max threshold) cs)) None.
Proof.
  destruct (run_history cs _ (init_well_formed base max threshold))
    as [s [Hrun [Hfees Hlast]]].
  exists s. repeat split; assumption.
Qed.

(** *** Congestion *)

(** X22. Whatever the constructor's arguments and whatever calls follow,
    the congestion stays between 0 and 1.  A timing update leaves it at
    most 0.8 when the block time is above 9 but not above 12, and at most
    0.5 when it is above 6 but not above 9, even if it was higher before;
    a block time of at most 6 never raises it. *)
Theorem congestion_stays_in_unit_interval
    (base max : Q) (threshold : Z) (cs : list call) (t : Q) :
  exists s,
    run (init base max threshold) cs = Ok s /\
    0 <= block_congestion s <= 1 /\
    let c' := block_congestion (record_timing s t) in
    0 <= c' <= 1 /\
    (9 < t -> t <= 12 -> c' <= 0.8) /\
    (6 < t -> t <= 9 -> c' <= 0.5) /\
    (t <= 6 -> c' <= block_congestion s).
Proof.
  destruct (run_preserves cs _ (init_well_formed base max threshold))
    as [s [Hrun [_ [_ Hc]]]].
  specialize (Hc (init_congestion_in_range _ _ _)).
  exists s. split; [exact Hrun |]. split; [exact Hc |]. cbv zeta.
  cbn [record_timing block_congestion].
  split; [now apply next_congestion_in_range |].
  destruct Hc as [Hc0 Hc1]. unfold next_congestion, gtb.
  split; [| split].
  - intros H9 H12.
    assert (H12' : t <= 12.0) by lra. assert (H9' : 9.0 < t) by lra.
    apply ltb_ge in H12'. apply ltb_lt in H9'. rewrite H12', H9'.
    apply min2_le_l.
  - intros H6 H9.
    assert (H12' : t <= 12.0) by lra. assert (H9' : t <= 9.0) by lra.
    assert (H6' : 6.0 < t) by lra.
    apply ltb_ge in H12'. apply ltb_ge in H9'. apply ltb_lt in H6'.
    rewrite H12', H9', H6'. apply min2_le_l.
  - intros H6.
    assert (H12' : t <= 12.0) by lra. assert (H9' : t <= 9.0) by lra.
    assert (H6' : t <= 6.0) by lra.
    apply ltb_ge in H12'. apply ltb_ge in H9'. apply ltb_ge in H6'.
    rewrite H12', H9', H6'.
    destruct (max2_cases 0.0 (block_congestion s - 0.05)) as [[-> H] | [-> H]];
      lra.
Qed.

End FeeStatisticsFacts.

(** * Properties of a registration attempt *)

Module AttemptFacts.

Import FeeStrategy FeeStrategyFacts Registration.
Local Open Scope Q_scope.

(** The Telegram notifications among the events of an attempt. *)
Definition is_notification (e : event) : bool :=
  match e with
  | NotifySuccess _ | NotifyFailure _ | NotifyError _ => true
  | _ => false
  end.

Definition notifications (evs : list event) : Z :=
  len (filter is_notification evs).

(** The events that report a submission to the chain. *)
Definition is_submission (e : event) : bool :=
  match e with
  | LogAttempt _ _ _ _ _ => true
  | _ => false
  end.

(** The chain answers of an attempt that passes the checks before the
    window: not registered, cost available, balance not below the cost. *)
Definition funded (v : chain_view) (balance cost : Q) : Prop :=
  open_handles v = Ok tt /\
  is_hotkey_registered v = Ok false /\
  get_burn_cost v = Ok (Some cost) /\
  get_balance v = Ok balance /\
  cost <= balance.

Lemma update_in_place_counts (fs : strategy) (b : bool) :
  (0 <= attempts fs)%Z ->
  exists fs',
    update_in_place fs b = (fs', Ok tt) /\
    attempts fs' = (attempts fs + 1)%Z /\
    successes fs' = (successes fs + if b then 1 else 0)%Z /\
    recent_fees fs' = recent_fees fs /\
    last_fee fs' = last_fee fs /\
    block_congestion fs' = block_congestion fs /\
    same_parameters fs fs'.
Proof.
  intros Ha. unfold update_in_place, update_statistics, record_outcome.
  rewrite true_div_ok by lia.
  cbn [bind]. eexists. split; [reflexivity |].
  cbn. repeat split. destruct b; lia.
Qed.

Lemma on_exception_counts (w : wallet) (fs : strategy) (evs : list event) :
  (0 <= attempts fs)%Z ->
  returned (on_exception w fs evs) = Ok false /\
  attempts (strategy_after (on_exception w fs evs)) = (attempts fs + 1)%Z /\
  events (on_exception w fs evs) = evs ++ [NotifyError w].
Proof.
  intros Ha. unfold on_exception.
  destruct (update_in_place_counts fs false Ha) as [fs' [-> [Hatt _]]].
  cbn. repeat split. exact Hatt.
Qed.

Lemma notifications_app (a b : list event) :
  notifications (a ++ b) = (notifications a + notifications b)%Z.
Proof.
  unfold notifications, len. rewrite filter_app, length_app. lia.
Qed.

(** The inputs with which an attempt returns before the submission, with
    the value it returns and the line it logs. *)
Inductive stops_early (mon : BlockMonitor.monitor) (now : Z) (v : chain_view)
    (w : wallet) : bool -> event -> Prop :=
| StopRegistered :
    open_handles v = Ok tt ->
    is_hotkey_registered v = Ok true ->
    stops_early mon now v w true (LogAlreadyRegistered w)
| StopNoCost :
    open_handles v = Ok tt ->
    is_hotkey_registered v = Ok false ->
    get_burn_cost v = Ok None ->
    stops_early mon now v w false (LogCostUnavailable w)
| StopInsufficient (balance cost : Q) :
    RegistrationFacts.insufficient v balance cost ->
    stops_early mon now v w false (LogInsufficientBalance w balance cost)
| StopClosed (balance cost : Q) (cb : option Z)
    (wi : option BlockMonitor.window_info) (st : string) :
    funded v balance cost ->
    BlockMonitor.get_current_block mon now = Ok (cb, wi) ->
    known_closed cb wi = Some st ->
    stops_early mon now v w false (LogNotInWindow st).

(** The inputs with which one of the calls inside the [try] raises. *)
Inductive chain_faults (mon : BlockMonitor.monitor) (now : Z) (v : chain_view)
  : Prop :=
| FaultHandles (e : exn) :
    open_handles v = Raise e ->
    chain_faults mon now v
| FaultRegistered (e : exn) :
    open_handles v = Ok tt ->
    is_hotkey_registered v = Raise e ->
    chain_faults mon now v
| FaultCost (e : exn) :
    open_handles v = Ok tt ->
    is_hotkey_registered v = Ok false ->
    get_burn_cost v = Raise e ->
    chain_faults mon now v
| FaultBalance (e : exn) (cost : Q) :
    open_handles v = Ok tt ->
    is_hotkey_registered v = Ok false ->
    get_burn_cost v = Ok (Some cost) ->
    get_balance v = Raise e ->
    chain_faults mon now v
| FaultMonitor (e : exn) (balance cost : Q) :
    funded v balance cost ->
    BlockMonitor.get_current_block mon now = Raise e ->
    chain_faults mon now v
| FaultSubmit (e : exn) (balance cost : Q) (cb : option Z)
    (wi : option BlockMonitor.window_info) :
    funded v balance cost ->
    BlockMonitor.get_current_block mon now = Ok (cb, wi) ->
    known_closed cb wi = None ->
    bt_register v = Raise e ->
    chain_faults mon now v.

(** The inputs with which the submission is made and answers [r]. *)
Definition submits (mon : BlockMonitor.monitor) (now : Z) (v : chain_view)
    (balance cost : Q) (r : bool) : Prop :=
  funded v balance cost /\
  (exists cb wi,
     BlockMonitor.get_current_block mon now = Ok (cb, wi) /\
     known_closed cb wi = None) /\
  bt_register v = Ok r.

Lemma funded_passes (v : chain_view) (balance cost : Q) :
  funded v balance cost ->
  open_handles v = Ok tt /\ is_hotkey_registered v = Ok false /\
  get_burn_cost v = Ok (Some cost) /\ get_balance v = Ok balance /\
  ltb balance cost = false.
Proof.
  intros [Ho [Hr [Hc [Hb Hle]]]]. apply ltb_ge in Hle. repeat split; assumption.
Qed.

Lemma priced_fee_keeps_counters (fs : strategy) (use_priority_fee : bool)
    (cost : Q) :
  attempts (snd (if use_priority_fee then compute_priority_fee fs cost
                 else (0, fs))) = attempts fs /\
  successes (snd (if use_priority_fee then compute_priority_fee fs cost
                  else (0, fs))) = successes fs.
Proof. destruct use_priority_fee; split; reflexivity. Qed.

(** Every input is of one of the three kinds. *)
Lemma attempt_kinds (mon : BlockMonitor.monitor) (now : Z) (v : chain_view)
    (w : wallet) :
  (exists b e, stops_early mon now v w b e) \/
  chain_faults mon now v \/
  (exists balance cost r, submits mon now v balance cost r).
Proof.
  destruct (open_handles v) as [[] | e] eqn:Ho;
    [| right; left; now apply (FaultHandles _ _ _ e)].
  destruct (is_hotkey_registered v) as [[|] | e] eqn:Hr;
    [left; exists true, (LogAlreadyRegistered w); now constructor | |
     right; left; now apply (FaultRegistered _ _ _ e)].
  destruct (get_burn_cost v) as [[cost |] | e] eqn:Hc;
    [| left; exists false, (LogCostUnavailable w); now constructor |
     right; left; now apply (FaultCost _ _ _ e)].
  destruct (get_balance v) as [balance | e] eqn:Hb;
    [| right; left; now apply (FaultBalance _ _ _ e cost)].
  destruct (ltb balance cost) eqn:Hlt.
  { left. exists false, (LogInsufficientBalance w balance cost).
    apply StopInsufficient. apply ltb_lt in Hlt. repeat split; assumption. }
  assert (Hf : funded v balance cost).
  { apply ltb_ge in Hlt. repeat split; assumption. }
  destruct (BlockMonitor.get_current_block mon now) as [[cb wi] | e] eqn:Hg;
    [| right; left; now apply (FaultMonitor _ _ _ e balance cost)].
  destruct (known_closed cb wi) as [st |] eqn:Hk.
  { left. exists false, (LogNotInWindow st).
    now apply (StopClosed _ _ _ _ balance cost cb wi st). }
  destruct (bt_register v) as [r | e] eqn:Hreg.
  - right; right. exists balance, cost, r.
    split; [exact Hf |]. split; [exists cb, wi; split; assumption | exact Hreg].
  - right; left. now apply (FaultSubmit _ _ _ e balance cost cb wi).
Qed.

(** X11. On a strategy whose attempts counter is not negative (every
    strategy reached from the constructor), [register_neuron] never raises:
    it returns True or False, sends at most one Telegram notification, and
    raises the attempts counter by one exactly when it sends one.  The four
    early returns (already registered, cost unavailable, insufficient
    balance, window closed) only log: no notification, no statistics
    update.  An exception raised by any of the calls inside the [try] is
    turned into a return of False that notifies the error once and counts
    one failed attempt.  A submission that answers returns that answer,
    notifies it once and counts it.  Every call is of one of these three
    kinds. *)
Theorem attempt_counts_what_it_notifies
    (mon : BlockMonitor.monitor) (fs : strategy) (w : wallet)
    (use_priority_fee : bool) (v : chain_view) (now : Z) :
  (0 <= attempts fs)%Z ->
  let o := register_neuron mon fs w use_priority_fee v now in
  (exists b, returned o = Ok b) /\
  (0 <= notifications (events o) <= 1)%Z /\
  attempts (strategy_after o) = (attempts fs + notifications (events o))%Z /\
  (forall b e,
     stops_early mon now v w b e ->
     o = done b fs [e] /\ notifications (events o) = 0%Z) /\
  (chain_faults mon now v ->
     returned o = Ok false /\
     notifications (events o) = 1%Z /\
     successes (strategy_after o) = successes fs /\
     exists evs,
       events o = evs ++ [NotifyError w] /\ notifications evs = 0%Z) /\
  (forall balance cost r,
     submits mon now v balance cost r ->
     returned o = Ok r /\
     notifications (events o) = 1%Z /\
     successes (strategy_after o) = (successes fs + if r then 1 else 0)%Z /\
     exists fee total,
       events o = [LogAttempt w cost fee total balance;
                   if r then NotifySuccess w else NotifyFailure w]) /\
  ((exists b e, stops_early mon now v w b e) \/
   chain_faults mon now v \/
   (exists balance cost r, submits mon now v balance cost r)).
Proof.
  intros Ha o.
  assert (Hearly : forall b e,
            stops_early mon now v w b e ->
            o = done b fs [e] /\ notifications (events o) = 0%Z).
  { intros b e Hs. subst o. unfold register_neuron.
    destruct Hs as [Ho Hr | Ho Hr Hc | balance cost Hins
                    | balance cost cb wi st Hf Hg Hk].
    - rewrite Ho, Hr. split; reflexivity.
    - rewrite Ho, Hr, Hc. split; reflexivity.
    - destruct Hins as [Ho [Hr [Hc [Hb Hlt]]]]. apply ltb_lt in Hlt.
      rewrite Ho, Hr, Hc, Hb, Hlt. split; reflexivity.
    - destruct (funded_passes v balance cost Hf) as [Ho [Hr [Hc [Hb Hlt]]]].
      rewrite Ho, Hr, Hc, Hb, Hlt, Hg, Hk. split; reflexivity. }
  assert (Hexc : forall fs1 evs,
            attempts fs1 = attempts fs -> successes fs1 = successes fs ->
            notifications evs = 0%Z ->
            returned (on_exception w fs1 evs) = Ok false /\
            notifications (events (on_exception w fs1 evs)) = 1%Z /\
            attempts (strategy_after (on_exception w fs1 evs))
              = (attempts fs + 1)%Z /\
            successes (strategy_after (on_exception w fs1 evs)) = successes fs /\
            exists evs',
              events (on_exception w fs1 evs) = evs' ++ [NotifyError w] /\
              notifications evs' = 0%Z).
  { intros fs1 evs Hatt Hsucc Hn. unfold on_exception.
    destruct (update_in_place_counts fs1 false) as [fs2 [-> [Ha2 [Hs2 _]]]];
      [lia |].
    cbn [returned events strategy_after bind].
    rewrite notifications_app, Hn.
    repeat split; [lia | lia |]. exists evs. split; [reflexivity | exact Hn]. }
  assert (Hfault : chain_faults mon now v ->
            returned o = Ok false /\
            notifications (events o) = 1%Z /\
            attempts (strategy_after o) = (attempts fs + 1)%Z /\
            successes (strategy_after o) = successes fs /\
            exists evs,
              events o = evs ++ [NotifyError w] /\ notifications evs = 0%Z).
  { intros Hf. subst o. unfold register_neuron.
    destruct Hf as [e Ho | e Ho Hr | e Ho Hr Hc | e cost Ho Hr Hc Hb
                    | e balance cost Hf Hg | e balance cost cb wi Hf Hg Hk Hreg].
    - rewrite Ho. now apply Hexc.
    - rewrite Ho, Hr. now apply Hexc.
    - rewrite Ho, Hr, Hc. now apply Hexc.
    - rewrite Ho, Hr, Hc, Hb. now apply Hexc.
    - destruct (funded_passes v balance cost Hf) as [Ho [Hr [Hc [Hb Hlt]]]].
      rewrite Ho, Hr, Hc, Hb, Hlt, Hg. now apply Hexc.
    - destruct (funded_passes v balance cost Hf) as [Ho [Hr [Hc [Hb Hlt]]]].
      rewrite Ho, Hr, Hc, Hb, Hlt, Hg, Hk, Hreg.
      destruct (priced_fee_keeps_counters fs use_priority_fee cost) as [H1 H2].
      destruct (if use_priority_fee then compute_priority_fee fs cost
                else (0, fs)) as [priority_fee fs1].
      cbn [snd] in H1, H2. now apply Hexc. }
  assert (Hsub : forall balance cost r,
            submits mon now v balance cost r ->
            returned o = Ok r /\
            notifications (events o) = 1%Z /\
            attempts (strategy_after o) = (attempts fs + 1)%Z /\
            successes (strategy_after o)
              = (successes fs + if r then 1 else 0)%Z /\
            exists fee total,
              events o = [LogAttempt w cost fee total balance;
                          if r then NotifySuccess w else NotifyFailure w]).
  { intros balance cost r [Hf [[cb [wi [Hg Hk]]] Hreg]]. subst o.
    unfold register_neuron.
    destruct (funded_passes v balance cost Hf) as [Ho [Hr [Hc [Hb Hlt]]]].
    rewrite Ho, Hr, Hc, Hb, Hlt, Hg, Hk, Hreg.
    destruct (priced_fee_keeps_counters fs use_priority_fee cost) as [H1 H2].
    destruct (if use_priority_fee then compute_priority_fee fs cost
              else (0, fs)) as [priority_fee fs1].
    cbn [snd] in H1, H2.
    destruct (update_in_place_counts fs1 r) as [fs2 [Hup [Ha2 [Hs2 _]]]];
      [lia |].
    destruct r; rewrite Hup; cbn [done returned events strategy_after app];
      (repeat split; [lia | lia |]); eexists; eexists; reflexivity. }
  pose proof (attempt_kinds mon now v w) as Hkinds.
  assert (Hcount : (exists b, returned o = Ok b) /\
            (0 <= notifications (events o) <= 1)%Z /\
            attempts (strategy_after o)
              = (attempts fs + notifications (events o))%Z).
  { destruct Hkinds as [[b [e Hs]] | [Hf | [balance [cost [r Hs]]]]].
    - destruct (Hearly b e Hs) as [Heq Hn]. rewrite Hn, Heq.
      cbn [done returned strategy_after]. split; [eauto | lia].
    - destruct (Hfault Hf) as [Hret [Hn [Hatt _]]]. rewrite Hn, Hret, Hatt.
      split; [eauto | lia].
    - destruct (Hsub balance cost r Hs) as [Hret [Hn [Hatt _]]].
      rewrite Hn, Hret, Hatt. split; [eauto | lia]. }
  destruct Hcount as [H1 [H2 H3]].
  split; [exact H1 |]. split; [exact H2 |]. split; [exact H3 |].
  split; [exact Hearly |].
  split.
  { intros Hf. destruct (Hfault Hf) as [Hret [Hn [_ [Hs Hev]]]].
    repeat split; assumption. }
  split; [| exact Hkinds].
  intros balance cost r Hs.
  destruct (Hsub balance cost r Hs) as [Hret [Hn [_ [Hsucc Hev]]]].
  repeat split; assumption.
Qed.

Lemma attempt_counts_what_it_notifies_witness :
  returned (register_neuron (BlockMonitor.init None None) default
              RegistrationFacts.alice true RegistrationFacts.poor_view 0)
  = Ok false /\
  attempts
    (strategy_after (register_neuron (BlockMonitor.init None None) default
                       RegistrationFacts.alice true RegistrationFacts.poor_view 0))
  = attempts default.
Proof.
  destruct (attempt_counts_what_it_notifies (BlockMonitor.init None None) default
              RegistrationFacts.alice true RegistrationFacts.poor_view 0)
    as [_ [_ [_ [Hearly _]]]].
  - vm_compute. discriminate.
  - destruct (Hearly false
                (LogInsufficientBalance RegistrationFacts.alice 0.5 1)) as [Heq _].
    + apply StopInsufficient. exact RegistrationFacts.poor_view_insufficient.
    + rewrite Heq. split; reflexivity.
Defined.

(** X12. [register_neuron] returns True only when the chain reported the
    hotkey as already registered or [bt.register] returned True; so a pass
    of the worker removes a wallet from its lane only in those two cases or
    when the stop event is set, and otherwise puts it back at the tail. *)
Theorem wallet_leaves_lane_only_when_registered
    (use_priority_fee : bool) (it : iteration) (w : wallet)
    (rest : list wallet) (l : lane) :
  let o := register_neuron (monitor_now it) (fee_strategy l) w
             use_priority_fee (view it) (clock it) in
  (returned o = Ok true ->
     is_hotkey_registered (view it) = Ok true \/
     bt_register (view it) = Ok true) /\
  (wallets (pass use_priority_fee it w rest l) = rest ++ [w] \/
   wallets (pass use_priority_fee it w rest l) = rest /\
   (stop_after_attempt it = true \/
    is_hotkey_registered (view it) = Ok true \/
    bt_register (view it) = Ok true)).
Proof.
  intros o.
  assert (Hexc : forall fs evs, returned (on_exception w fs evs) <> Ok true).
  { intros fs evs. unfold on_exception.
    destruct (update_in_place fs false) as [fs' [[] | e]]; cbn; discriminate. }
  assert (Htrue : returned o = Ok true ->
            is_hotkey_registered (view it) = Ok true \/
            bt_register (view it) = Ok true).
  { subst o. unfold register_neuron.
    destruct (open_handles (view it)); [| intros H; now apply Hexc in H].
    destruct (is_hotkey_registered (view it)) as [[|] |];
      [intros _; left; reflexivity | | intros H; now apply Hexc in H].
    destruct (get_burn_cost (view it)) as [[cost |] |];
      [| discriminate | intros H; now apply Hexc in H].
    destruct (get_balance (view it)) as [balance |];
      [| intros H; now apply Hexc in H].
    destruct (ltb balance cost); [discriminate |].
    destruct (BlockMonitor.get_current_block (monitor_now it) (clock it))
      as [[cb wi] |]; [| intros H; now apply Hexc in H].
    destruct (known_closed cb wi); [discriminate |].
    destruct (if use_priority_fee
              then compute_priority_fee (fee_strategy l) cost
              else (0, fee_strategy l)) as [priority_fee fs1].
    destruct (bt_register (view it)) as [[|] |];
      [intros _; right; reflexivity | | intros H; now apply Hexc in H].
    destruct (update_in_place fs1 false) as [fs2 [[] | e]];
      [discriminate | intros H; now apply Hexc in H]. }
  split; [exact Htrue |].
  unfold pass. fold o. cbn [wallets].
  destruct (returned o) as [[|] | e].
  - right. split; [reflexivity |]. right. now apply Htrue.
  - cbn [negb andb]. destruct (stop_after_attempt it);
      [right; split; [reflexivity | left; reflexivity] | left; reflexivity].
  - destruct (stop_after_attempt it);
      [right; split; [reflexivity | left; reflexivity] | left; reflexivity].
Qed.

(** X13. When the monitor holds a nonzero height younger than ten seconds
    whose offset is outside the window, a funded attempt stops before the
    submission: it returns False with the monitor's status line, computes no
    priority fee, updates no statistics and sends no notification. *)
Theorem closed_window_blocks_submission
    (mon : BlockMonitor.monitor) (fs : strategy) (w : wallet)
    (use_priority_fee : bool) (v : chain_view) (now b : Z) (balance cost : Q) :
  funded v balance cost ->
  BlockMonitor.current_block mon = Some b ->
  b <> 0%Z ->
  (now - BlockMonitor.last_updated mon < BlockMonitor.seconds 10)%Z ->
  (0 < BlockMonitor.tempo mon)%Z ->
  BlockMonitor.block_window mon <> [] ->
  ~ In (b mod BlockMonitor.tempo mon)%Z (BlockMonitor.block_window mon) ->
  exists wi,
    BlockMonitor._get_window_info mon (Some b) = Ok wi /\
    BlockMonitor.in_window wi = false /\
    register_neuron mon fs w use_priority_fee v now =
      done false fs [LogNotInWindow (BlockMonitor.status wi)].
Proof.
  intros [Ho [Hr [Hc [Hb Hle]]]] Hcur Hb0 Hfresh Ht Hw Hout.
  destruct (BlockMonitorFacts.window_info_shape mon b) as [wi [Hwi [_ Hin]]];
    [lia | exact Hw |].
  assert (Hclosed : BlockMonitor.in_window wi = false).
  { rewrite Hin.
    destruct (Py.contains _ _) eqn:E; [| reflexivity].
    apply BlockMonitorFacts.contains_In in E. contradiction. }
  exists wi. split; [exact Hwi |]. split; [exact Hclosed |].
  unfold register_neuron. rewrite Ho, Hr, Hc, Hb.
  apply ltb_ge in Hle. rewrite Hle.
  unfold BlockMonitor.get_current_block. rewrite Hcur.
  apply Z.ltb_lt in Hfresh. rewrite Hfresh, Hwi. cbn [bind].
  unfold known_closed. cbn [Py.truthy_int]. rewrite Hclosed.
  apply Z.eqb_neq in Hb0. rewrite Hb0. reflexivity.
Qed.

(** X14. When the monitor has no height, or only one that is ten seconds
    old or older, the window is not consulted: a funded attempt is
    submitted whatever the offset of the real block is, returns what
    [bt.register] reported, counts one attempt and sends one notification.
    With the priority fee on, the total logged is the cost plus the fee the
    strategy priced, and that fee enters the history. *)
Theorem unknown_window_does_not_block
    (mon : BlockMonitor.monitor) (fs : strategy) (w : wallet)
    (use_priority_fee : bool) (v : chain_view) (now : Z)
    (balance cost : Q) (r : bool) :
  funded v balance cost ->
  BlockMonitor.current_block mon = None \/
    (BlockMonitor.seconds 10 <= now - BlockMonitor.last_updated mon)%Z ->
  bt_register v = Ok r ->
  (0 <= attempts fs)%Z ->
  let o := register_neuron mon fs w use_priority_fee v now in
  let fee := if use_priority_fee then priced fs cost else 0 in
  let total := if use_priority_fee then cost + fee else cost in
  returned o = Ok r /\
  events o = [LogAttempt w cost fee total balance;
              if r then NotifySuccess w else NotifyFailure w] /\
  attempts (strategy_after o) = (attempts fs + 1)%Z /\
  successes (strategy_after o) = (successes fs + if r then 1 else 0)%Z /\
  recent_fees (strategy_after o) =
    if use_priority_fee then remember (recent_fees fs) fee else recent_fees fs.
Proof.
  intros [Ho [Hr [Hc [Hb Hle]]]] Hunknown Hreg Ha o fee total.
  subst o fee total.
  assert (Hget : BlockMonitor.get_current_block mon now = Ok (None, None)).
  { unfold BlockMonitor.get_current_block.
    destruct Hunknown as [-> | Hold]; [reflexivity |].
    destruct (BlockMonitor.current_block mon); [| reflexivity].
    destruct (Z.ltb_spec (now - BlockMonitor.last_updated mon)
                (BlockMonitor.seconds 10)); [lia | reflexivity]. }
  unfold register_neuron. rewrite Ho, Hr, Hc, Hb.
  apply ltb_ge in Hle. rewrite Hle, Hget. cbn [known_closed].
  rewrite Hreg.
  destruct use_priority_fee.
  - cbn [compute_priority_fee].
    match goal with
    | |- context [update_in_place ?fs1 _] =>
        destruct (update_in_place_counts fs1 r) as [fs2 [Hup [Hatt [Hsucc [Hfees _]]]]];
          [exact Ha |]
    end.
    destruct r; rewrite Hup; cbn [done returned events strategy_after app];
      cbn [attempts successes recent_fees] in Hatt, Hsucc, Hfees;
      repeat split; assumption.
  - destruct (update_in_place_counts fs r Ha)
      as [fs2 [Hup [Hatt [Hsucc [Hfees _]]]]].
    destruct r; rewrite Hup; cbn [done returned events strategy_after app];
      repeat split; assumption.
Qed.

(** Not registered, cost 1, balance 5; the submission will be rejected. *)
Definition ready_view : chain_view :=
  {| open_handles := Ok tt;
     is_hotkey_registered := Ok false;
     get_burn_cost := Ok (Some 1);
     get_balance := Ok 5;
     bt_register := Ok false |}.

Lemma ready_view_funded : funded ready_view 5 1.
Proof. repeat split. discriminate. Qed.

(** A monitor that stored height 365 (offset 5) at time 5 s. *)
Definition before_window : BlockMonitor.monitor :=
  {| BlockMonitor.current_block := Some 365%Z;
     BlockMonitor.last_updated := BlockMonitor.seconds 5;
     BlockMonitor.taostats_api_key := Config.TAOSTATS_API_KEY;
     BlockMonitor.subscan_api_key := Config.SUBSCAN_API_KEY;
     BlockMonitor.tempo := Config.TEMPO;
     BlockMonitor.block_window := Config.BLOCK_WINDOW |}.

Lemma closed_window_blocks_submission_witness :
  exists wi,
    BlockMonitor._get_window_info before_window (Some 365%Z) = Ok wi /\
    BlockMonitor.in_window wi = false /\
    register_neuron before_window default RegistrationFacts.alice true
      ready_view (BlockMonitor.seconds 7) =
      done false default [LogNotInWindow (BlockMonitor.status wi)].
Proof.
  apply (closed_window_blocks_submission before_window default
           RegistrationFacts.alice true ready_view (BlockMonitor.seconds 7)
           365%Z 5 1).
  - exact ready_view_funded.
  - reflexivity.
  - discriminate.
  - reflexivity.
  - reflexivity.
  - discriminate.
  - rewrite <- BlockMonitorFacts.contains_In. vm_compute. discriminate.
Defined.

Lemma unknown_window_does_not_block_witness :
  returned (register_neuron before_window default RegistrationFacts.alice
              true ready_view (BlockMonitor.seconds 15)) = Ok false /\
  attempts (strategy_after
              (register_neuron before_window default RegistrationFacts.alice
                 true ready_view (BlockMonitor.seconds 15)))
  = (attempts default + 1)%Z.
Proof.
  destruct (unknown_window_does_not_block before_window default
              RegistrationFacts.alice true ready_view (BlockMonitor.seconds 15)
              5 1 false)
    as [Hret [_ [Hatt _]]].
  - exact ready_view_funded.
  - right. vm_compute. discriminate.
  - reflexivity.
  - vm_compute. discriminate.
  - split; [exact Hret | exact Hatt].
Defined.

End AttemptFacts.


(** * Properties of a lane over many passes *)

Module LaneFacts.

Import FeeStrategy FeeStrategyFacts Registration RegistrationFacts AttemptFacts.
Local Open Scope Q_scope.

(** A pass puts the popped wallet back at the tail or drops it. *)
Lemma pass_requeues_or_drops (use_priority_fee : bool) (it : iteration)
    (w : wallet) (rest : list wallet) (l : lane) :
  wallets (pass use_priority_fee it w rest l) = rest ++ [w] \/
  wallets (pass use_priority_fee it w rest l) = rest.
Proof.
  unfold pass. cbn [wallets].
  match goal with |- context [if ?c then _ else _] => destruct c end;
    [left | right]; reflexivity.
Qed.

(** X15. Whatever the chain answers and whenever the stop event is set,
    the worker never invents or duplicates a wallet: the lane it started
    with is, up to order, the lane it ends with together with the wallets
    it removed. *)
Theorem lane_only_loses_wallets
    (use_priority_fee : bool) (its : list iteration) (l : lane) :
  exists removed,
    Permutation (wallets l)
      (removed ++ wallets (register_thread use_priority_fee its l)) /\
    incl removed (attempted (register_thread use_priority_fee its l)).
Proof.
  revert l. induction its as [| it its IH]; intros l; cbn [register_thread].
  - exists []. split; [reflexivity | intros x []].
  - destruct (stop_at_head it); [exists []; split; [reflexivity | intros x []] |].
    destruct (wallets l) as [| w rest] eqn:Hw;
      [exists []; rewrite Hw; split; [reflexivity | intros x []] |].
    destruct (IH (pass use_priority_fee it w rest l)) as [removed [Hperm Hincl]].
    assert (Hw_attempted :
              In w (attempted (register_thread use_priority_fee its
                                 (pass use_priority_fee it w rest l)))).
    { destruct (register_thread_extends use_priority_fee its
                  (pass use_priority_fee it w rest l)) as [ext Hext].
      destruct (pass_wallets use_priority_fee it w rest l) as [_ [_ Hh]].
      unfold attempted. rewrite Hext, Hh, !map_app.
      apply in_or_app. left. apply in_or_app. right. left. reflexivity. }
    destruct (pass_requeues_or_drops use_priority_fee it w rest l) as [Hq | Hq];
      rewrite Hq in Hperm.
    + exists removed. split; [| exact Hincl].
      rewrite <- Hperm. apply Permutation_cons_append.
    + exists (w :: removed). split.
      * cbn [app]. apply perm_skip. exact Hperm.
      * intros x [<- | Hx]; [exact Hw_attempted | now apply Hincl].
Qed.

(** A pass during which the stop event is clear and the chain reports the
    hotkey as already registered. *)
Definition already_registered (it : iteration) : Prop :=
  running it /\
  open_handles (view it) = Ok tt /\
  is_hotkey_registered (view it) = Ok true.

(** X16. When every wallet of a lane is already registered on the chain,
    the worker attempts each wallet exactly once, in lane order, submits
    nothing (each attempt returns True right after the registration
    check), leaves the fee strategy untouched and ends with an empty
    lane. *)
Theorem registered_lane_drains
    (use_priority_fee : bool) (its : list iteration) (l : lane) :
  Forall already_registered its ->
  (List.length (wallets l) <= List.length its)%nat ->
  let l' := register_thread use_priority_fee its l in
  wallets l' = [] /\
  fee_strategy l' = fee_strategy l /\
  history l' =
    history l ++
    map (fun w => (w, done true (fee_strategy l) [LogAlreadyRegistered w]))
      (wallets l).
Proof.
  intros Hall Hlen l'. subst l'.
  revert l Hlen. induction Hall as [| it its [[Hhead _] [Ho Hr]] _ IH];
    intros l Hlen.
  - destruct (wallets l) eqn:Hw; [| cbn in Hlen; lia].
    cbn [register_thread map]. rewrite app_nil_r. repeat split. exact Hw.
  - cbn [register_thread]. rewrite Hhead.
    destruct (wallets l) as [| w rest] eqn:Hw.
    + cbn [map]. rewrite app_nil_r. repeat split. exact Hw.
    + assert (Hpass : pass use_priority_fee it w rest l =
                {| wallets := rest;
                   fee_strategy := fee_strategy l;
                   history := history l ++
                     [(w, done true (fee_strategy l) [LogAlreadyRegistered w])] |}).
      { unfold pass, register_neuron. rewrite Ho, Hr. reflexivity. }
      rewrite Hpass.
      match goal with
      | |- context [register_thread _ its ?l1] =>
          destruct (IH l1) as [Hempty [Hfs Hhist]];
            [cbn [wallets]; cbn [List.length] in Hlen; lia |]
      end.
      cbn [wallets fee_strategy history] in Hempty, Hfs, Hhist.
      split; [exact Hempty |]. split; [exact Hfs |].
      rewrite Hhist, <- app_assoc. reflexivity.
Qed.

Lemma registered_lane_drains_witness :
  wallets (register_thread true
             [undisturbed registered_view; undisturbed registered_view;
              undisturbed registered_view]
             (fresh_lane [alice; bob])) = [] /\
  attempted (register_thread true
               [undisturbed registered_view; undisturbed registered_view;
                undisturbed registered_view]
               (fresh_lane [alice; bob])) = [alice; bob].
Proof.
  destruct (registered_lane_drains true
              [undisturbed registered_view; undisturbed registered_view;
               undisturbed registered_view]
              (fresh_lane [alice; bob]))
    as [Hempty [_ Hhist]].
  - repeat constructor.
  - cbn. lia.
  - split; [exact Hempty |]. unfold attempted. rewrite Hhist. reflexivity.
Defined.

(** A pass during which the stop event is clear, the wallet is funded, the
    monitor does not report a closed window, and [bt.register] does not
    return True. *)
Definition rejected (it : iteration) : Prop :=
  running it /\
  (exists balance cost, funded (view it) balance cost) /\
  (exists cb wi,
     BlockMonitor.get_current_block (monitor_now it) (clock it) = Ok (cb, wi) /\
     known_closed cb wi = None) /\
  bt_register (view it) = Ok false.

Lemma pass_rejected (use_priority_fee : bool) (it : iteration)
    (w : wallet) (rest : list wallet) (l : lane) :
  rejected it ->
  (0 <= attempts (fee_strategy l))%Z ->
  let l1 := pass use_priority_fee it w rest l in
  wallets l1 = rest ++ [w] /\
  attempts (fee_strategy l1) = (attempts (fee_strategy l) + 1)%Z /\
  successes (fee_strategy l1) = successes (fee_strategy l) /\
  exists o, history l1 = history l ++ [(w, o)] /\ returned o = Ok false.
Proof.
  intros [[_ Hafter] [[balance [cost [Ho [Hr [Hc [Hb Hle]]]]]]
                        [[cb [wi [Hget Hopen]]] Hreg]]] Ha l1.
  subst l1. unfold pass.
  set (o := register_neuron (monitor_now it) (fee_strategy l) w
              use_priority_fee (view it) (clock it)).
  assert (Ho' : returned o = Ok false /\
                attempts (strategy_after o) = (attempts (fee_strategy l) + 1)%Z /\
                successes (strategy_after o) = successes (fee_strategy l)).
  { subst o. unfold register_neuron. rewrite Ho, Hr, Hc, Hb.
    apply ltb_ge in Hle. rewrite Hle, Hget, Hopen, Hreg.
    destruct use_priority_fee.
    - cbn [compute_priority_fee].
      match goal with
      | |- context [update_in_place ?fs1 _] =>
          destruct (update_in_place_counts fs1 false)
            as [fs2 [Hup [Hatt [Hsucc _]]]]; [exact Ha |]
      end.
      rewrite Hup. cbn [done returned strategy_after].
      cbn [attempts successes] in Hatt, Hsucc.
      repeat split; [exact Hatt | lia].
    - destruct (update_in_place_counts (fee_strategy l) false Ha)
        as [fs2 [Hup [Hatt [Hsucc _]]]].
      rewrite Hup. cbn [done returned strategy_after].
      repeat split; [exact Hatt | lia]. }
  destruct Ho' as [Hret [Hatt Hsucc]].
  rewrite Hret, Hafter. cbn [negb andb wallets fee_strategy history].
  repeat split; try assumption.
  exists o. split; [reflexivity | exact Hret].
Qed.

(** Rotating a rotation whose tail ends with the wallet that was moved. *)
Lemma rotation_step {A : Type} (w : A) (rest a b : list A) :
  rest ++ [w] = a ++ b ->
  exists a' b', w :: rest = a' ++ b' /\ b ++ a = b' ++ a'.
Proof.
  intros H.
  assert (Hb : b = [] \/ exists b0 x, b = b0 ++ [x]).
  { destruct b as [| y b]; [left; reflexivity | right].
    destruct (@exists_last _ (y :: b)) as [b0 [x Hx]]; [discriminate |].
    exists b0, x. exact Hx. }
  destruct Hb as [-> | [b0 [x ->]]].
  - rewrite app_nil_r in H. subst a.
    exists [w], rest. split; reflexivity.
  - rewrite app_assoc in H. apply app_inj_tail in H. destruct H as [-> <-].
    exists (w :: a), b0. split; [reflexivity |].
    rewrite <- app_assoc. reflexivity.
Qed.

(** X17. A lane whose every attempt is rejected by the chain is retried
    without end: while the stop event stays clear, [n] passes make [n]
    attempts, each returning False, each raising the attempts counter by
    exactly one and none raising the successes counter, and the lane keeps
    all its wallets, rotated. *)
Theorem rejected_lane_retries_every_pass
    (use_priority_fee : bool) (its : list iteration) (l : lane) :
  Forall rejected its ->
  wallets l <> [] ->
  (0 <= attempts (fee_strategy l))%Z ->
  let l' := register_thread use_priority_fee its l in
  (exists ext,
     history l' = history l ++ ext /\
     List.length ext = List.length its /\
     Forall (fun p => returned (snd p) = Ok false) ext) /\
  attempts (fee_strategy l') =
    (attempts (fee_strategy l) + Z.of_nat (List.length its))%Z /\
  successes (fee_strategy l') = successes (fee_strategy l) /\
  exists a b, wallets l = a ++ b /\ wallets l' = b ++ a.
Proof.
  intros Hall. revert l.
  induction Hall as [| it its Hit _ IH]; intros l Hne Ha l'; subst l'.
  - cbn [register_thread List.length]. split.
    + exists []. rewrite app_nil_r. repeat split. constructor.
    + split; [lia |]. split; [reflexivity |].
      exists [], (wallets l). split; [reflexivity | now rewrite app_nil_r].
  - cbn [register_thread].
    destruct Hit as [[Hhead Hafter] Hrest]. rewrite Hhead.
    destruct (wallets l) as [| w rest] eqn:Hw; [congruence |].
    destruct (pass_rejected use_priority_fee it w rest l
                (conj (conj Hhead Hafter) Hrest) Ha)
      as [Hwal [Hatt [Hsucc [o [Hhist Hret]]]]].
    destruct (IH (pass use_priority_fee it w rest l))
      as [[ext [Hext [Hlen Hfalse]]] [Hatt' [Hsucc' [a [b [Hab Hba]]]]]].
    + rewrite Hwal. destruct rest; discriminate.
    + lia.
    + split; [| split; [| split]].
      * exists ((w, o) :: ext). rewrite Hext, Hhist, <- app_assoc.
        split; [reflexivity |]. split; [cbn [List.length]; lia |].
        constructor; assumption.
      * rewrite Hatt', Hatt. cbn [List.length]. lia.
      * congruence.
      * rewrite Hwal in Hab.
        destruct (rotation_step w rest a b Hab) as [a' [b' [H1 H2]]].
        exists a', b'. split; [exact H1 | congruence].
Qed.

Lemma ready_rejected : rejected (undisturbed ready_view).
Proof.
  split; [split; reflexivity |].
  split; [exists 5, 1; exact ready_view_funded |].
  split; [| reflexivity].
  exists None, None. split; reflexivity.
Qed.

Lemma rejected_lane_retries_every_pass_witness :
  attempts (fee_strategy
              (register_thread true
                 [undisturbed ready_view; undisturbed ready_view;
                  undisturbed ready_view]
                 (fresh_lane [alice])))
  = (attempts (fee_strategy (fresh_lane [alice])) + 3)%Z /\
  exists a b,
    wallets (fresh_lane [alice]) = a ++ b /\
    wallets (register_thread true
               [undisturbed ready_view; undisturbed ready_view;
                undisturbed ready_view]
               (fresh_lane [alice])) = b ++ a.
Proof.
  destruct (rejected_lane_retries_every_pass true
              [undisturbed ready_view; undisturbed ready_view;
               undisturbed ready_view]
              (fresh_lane [alice]))
    as [_ [Hatt [_ Hrot]]].
  - repeat (apply Forall_cons; [exact ready_rejected |]). apply Forall_nil.
  - discriminate.
  - vm_compute. discriminate.
  - split; [exact Hatt | exact Hrot].
Defined.

End LaneFacts.

(** ** strategy/registration.py: [multi_register] *)

Module Orchestration.

Import Registration.
Local Open Scope Z_scope.

(** What the partition loop can raise: an exception of a built-in
    operation, or the IndexError of a list subscript. *)
Inductive raised : Type :=
| Builtin (e : exn)
| IndexError.

(** [wallet_groups] after [for i in range(thread_count):
    wallet_groups.append([])]; the range is empty for a count below 1. *)
Definition empty_groups (thread_count : Z) : list (list wallet) :=
  repeat [] (Z.to_nat thread_count).

(** [groups[k].append(w)] for an index inside the list. *)
Fixpoint append_at (k : nat) (w : wallet) (groups : list (list wallet))
  : list (list wallet) :=
  match groups, k with
  | [], _ => []
  | g :: gs, O => (g ++ [w]) :: gs
  | g :: gs, S k' => g :: append_at k' w gs
  end.

(** [wallet_groups[i % thread_count].append(wallet)]: a negative subscript
    counts from the end, a subscript outside the list raises. *)
Definition place (thread_count : Z) (i : nat) (w : wallet)
    (groups : list (list wallet)) : raised + list (list wallet) :=
  match Py.mod_ (Z.of_nat i) thread_count with
  | Raise e => inl (Builtin e)
  | Ok k =>
      let n := Z.of_nat (List.length groups) in
      if (0 <=? k) && (k <? n) then inr (append_at (Z.to_nat k) w groups)
      else if (- n <=? k) && (k <? 0)
           then inr (append_at (Z.to_nat (n + k)) w groups)
           else inl IndexError
  end.

(** [for i, wallet in enumerate(wallets): ...], from index [i] on. *)
Fixpoint distribute (thread_count : Z) (i : nat) (ws : list wallet)
    (groups : list (list wallet)) : raised + list (list wallet) :=
  match ws with
  | [] => inr groups
  | w :: ws' =>
      match place thread_count i w groups with
      | inr groups' => distribute thread_count (S i) ws' groups'
      | inl e => inl e
      end
  end.

(** The wallet groups [multi_register] builds. *)
Definition wallet_groups (thread_count : Z) (ws : list wallet)
  : raised + list (list wallet) :=
  distribute thread_count 0 ws (empty_groups thread_count).

(** The groups that get a worker: [if wallet_groups[i]]. *)
Definition lanes (groups : list (list wallet)) : list (list wallet) :=
  filter (fun g => match g with [] => false | _ => true end) groups.

(** Equality of wallet dictionaries. *)
Definition wallet_eqb (a b : wallet) : bool :=
  String.eqb (coldkey a) (coldkey b) && String.eqb (hotkey a) (hotkey b).

(** [wallet in registered_wallets]. *)
Definition registered_in (w : wallet) (registered : list wallet) : bool :=
  existsb (wallet_eqb w) registered.

(** The [for wallet in wallets] loop of one round of the status loop, from
    position [i] on.  [chain i] is what the registration query answers for
    the wallet at position [i] ([Raise] when building the wallet object or
    the query raises; the loop logs it and goes on).  Returns
    [registered_wallets] and [newly_registered]. *)
Fixpoint confirm (chain : nat -> result bool) (i : nat) (ws : list wallet)
    (registered newly : list wallet) : list wallet * list wallet :=
  match ws with
  | [] => (registered, newly)
  | w :: ws' =>
      if registered_in w registered then
        confirm chain (S i) ws' registered newly
      else
        match chain i with
        | Ok true => confirm chain (S i) ws' (registered ++ [w]) (newly ++ [w])
        | _ => confirm chain (S i) ws' registered newly
        end
  end.

(** [registered_wallets] after one round. *)
Definition round (ws : list wallet) (registered : list wallet)
    (chain : nat -> result bool) : list wallet :=
  fst (confirm chain 0 ws registered []).

(** [registered_wallets] after successive rounds, starting empty. *)
Definition rounds (ws : list wallet) (chains : list (nat -> result bool))
  : list wallet :=
  fold_left (round ws) chains [].

End Orchestration.

(** * Properties of the partition into lanes *)

Module PartitionFacts.

Import Registration Orchestration.
Local Open Scope nat_scope.

(** The wallets of [ws] whose position, counted from [i], is congruent to
    [j] modulo [n], in order. *)
Fixpoint picks (n i j : nat) (ws : list wallet) : list wallet :=
  match ws with
  | [] => []
  | w :: ws' => (if i mod n =? j then [w] else []) ++ picks n (S i) j ws'
  end.

Lemma append_at_length (k : nat) (w : wallet) (groups : list (list wallet)) :
  List.length (append_at k w groups) = List.length groups.
Proof.
  revert k. induction groups as [| g gs IH]; intros k;
    [destruct k; reflexivity |].
  destruct k; cbn [append_at List.length]; [reflexivity | now rewrite IH].
Qed.

Lemma append_at_nth (k : nat) (w : wallet) (groups : list (list wallet)) (j : nat) :
  k < List.length groups ->
  nth j (append_at k w groups) [] =
    nth j groups [] ++ (if k =? j then [w] else []).
Proof.
  revert k j. induction groups as [| g gs IH]; intros k j Hk;
    [cbn in Hk; lia |].
  destruct k as [| k]; destruct j as [| j]; cbn [append_at nth Nat.eqb].
  - reflexivity.
  - now rewrite app_nil_r.
  - now rewrite app_nil_r.
  - apply IH. cbn in Hk. lia.
Qed.

Lemma place_positive (n i : nat) (w : wallet) (groups : list (list wallet)) :
  0 < n -> List.length groups = n ->
  place (Z.of_nat n) i w groups = inr (append_at (i mod n) w groups).
Proof.
  intros Hn Hlen. unfold place, Py.mod_.
  destruct (Z.eqb_spec (Z.of_nat n) 0) as [E | _]; [lia |].
  rewrite Hlen.
  assert (Hk : (Z.of_nat i mod Z.of_nat n)%Z = Z.of_nat (i mod n))
    by (symmetry; apply Nat2Z.inj_mod).
  rewrite Hk.
  pose proof (Nat.mod_upper_bound i n) as Hub.
  destruct (Z.leb_spec 0 (Z.of_nat (i mod n))); [| lia].
  destruct (Z.ltb_spec (Z.of_nat (i mod n)) (Z.of_nat n)); [| lia].
  cbn [andb]. now rewrite Nat2Z.id.
Qed.

Lemma distribute_positive (n : nat) (ws : list wallet) :
  0 < n ->
  forall i groups,
    List.length groups = n ->
    exists groups',
      distribute (Z.of_nat n) i ws groups = inr groups' /\
      List.length groups' = n /\
      forall j, nth j groups' [] = nth j groups [] ++ picks n i j ws.
Proof.
  intros Hn. induction ws as [| w ws IH]; intros i groups Hlen.
  - exists groups. cbn [distribute picks]. repeat split; [exact Hlen |].
    intros j. now rewrite app_nil_r.
  - cbn [distribute picks]. rewrite (place_positive n i w groups Hn Hlen).
    destruct (IH (S i) (append_at (i mod n) w groups))
      as [groups' [Hd [Hlen' Hnth]]].
    { now rewrite append_at_length. }
    exists groups'. split; [exact Hd |]. split; [exact Hlen' |].
    intros j. rewrite Hnth, append_at_nth, <- app_assoc; [reflexivity |].
    rewrite Hlen. apply Nat.mod_upper_bound. lia.
Qed.

Lemma empty_groups_nth (tc : Z) (j : nat) : nth j (empty_groups tc) [] = [].
Proof.
  unfold empty_groups. generalize (Z.to_nat tc) as n. intros n. revert j.
  induction n as [| n IH]; intros [| j]; cbn; auto.
Qed.

(** The groups of a positive thread count, lane by lane. *)
Lemma wallet_groups_picks (tc : Z) (ws : list wallet) :
  (0 < tc)%Z ->
  exists groups,
    wallet_groups tc ws = inr groups /\
    List.length groups = Z.to_nat tc /\
    forall j, nth j groups [] = picks (Z.to_nat tc) 0 j ws.
Proof.
  intros Htc. unfold wallet_groups.
  destruct (distribute_positive (Z.to_nat tc) ws ltac:(lia) 0 (empty_groups tc))
    as [groups [Hd [Hlen Hnth]]].
  { unfold empty_groups. apply repeat_length. }
  rewrite Z2Nat.id in Hd by lia.
  exists groups. split; [exact Hd |]. split; [exact Hlen |].
  intros j. rewrite Hnth, empty_groups_nth. reflexivity.
Qed.

Lemma picks_app (n j : nat) (a b : list wallet) (i : nat) :
  picks n i j (a ++ b) = picks n i j a ++ picks n (i + List.length a) j b.
Proof.
  revert i. induction a as [| w a IH]; intros i; cbn [app picks List.length].
  - now rewrite Nat.add_0_r.
  - rewrite IH, <- app_assoc.
    replace (i + S (List.length a)) with (S i + List.length a) by lia.
    reflexivity.
Qed.

Lemma picks_snoc (n j : nat) (ws : list wallet) (w : wallet) :
  picks n 0 j (ws ++ [w]) =
    picks n 0 j ws ++ (if List.length ws mod n =? j then [w] else []).
Proof. rewrite picks_app. cbn [picks Nat.add]. now rewrite app_nil_r. Qed.

(** Quotient and remainder of the successor. *)
Lemma succ_div_mod (N n : nat) :
  0 < n ->
  (S (N mod n) < n /\ S N / n = N / n /\ S N mod n = S (N mod n)) \/
  (S (N mod n) = n /\ S N / n = S (N / n) /\ S N mod n = 0).
Proof.
  intros Hn.
  pose proof (Nat.div_mod_eq N n) as Hdm.
  pose proof (Nat.mod_upper_bound N n ltac:(lia)) as Hub.
  destruct (Nat.eq_dec (S (N mod n)) n) as [Heq | Hneq].
  - right. split; [exact Heq |].
    assert (HSN : S N = n * S (N / n) + 0) by (rewrite Nat.mul_succ_r; lia).
    split.
    + symmetry. apply (Nat.div_unique _ _ _ 0); [lia | exact HSN].
    + symmetry. apply (Nat.mod_unique _ _ (S (N / n))); [lia | exact HSN].
  - left. split; [lia |].
    assert (HSN : S N = n * (N / n) + S (N mod n)) by lia.
    split.
    + symmetry. apply (Nat.div_unique _ _ _ (S (N mod n))); [lia | exact HSN].
    + symmetry. apply (Nat.mod_unique _ _ (N / n)); [lia | exact HSN].
Qed.

Lemma picks_length (n j : nat) (ws : list wallet) :
  j < n ->
  List.length (picks n 0 j ws) =
    List.length ws / n + (if j <? List.length ws mod n then 1 else 0).
Proof.
  intros Hj. induction ws as [| w ws IH] using rev_ind.
  - cbn [picks List.length]. rewrite Nat.Div0.div_0_l, Nat.Div0.mod_0_l.
    reflexivity.
  - rewrite picks_snoc, !length_app, IH. cbn [List.length].
    rewrite Nat.add_1_r.
    set (N := List.length ws).
    destruct (succ_div_mod N n ltac:(lia)) as [[Hlt [Hd Hm]] | [Heq [Hd Hm]]];
      rewrite Hd, Hm.
    + destruct (Nat.eqb_spec (N mod n) j) as [E | E];
        destruct (Nat.ltb_spec j (N mod n));
        destruct (Nat.ltb_spec j (S (N mod n))); cbn [List.length]; lia.
    + destruct (Nat.eqb_spec (N mod n) j) as [E | E];
        destruct (Nat.ltb_spec j (N mod n));
        destruct (Nat.ltb_spec j 0); cbn [List.length]; lia.
Qed.

Lemma picks_nth_error (n j : nat) (ws : list wallet) (q : nat) :
  j < n ->
  nth_error (picks n 0 j ws) q = nth_error ws (q * n + j).
Proof.
  intros Hj. revert q. induction ws as [| w ws IH] using rev_ind; intros q.
  - cbn [picks]. now rewrite !nth_error_nil.
  - rewrite picks_snoc.
    set (N := List.length ws).
    pose proof (picks_length n j ws Hj) as Hlen. fold N in Hlen.
    pose proof (Nat.div_mod_eq N n) as Hdm.
    pose proof (Nat.mod_upper_bound N n ltac:(lia)) as Hub.
    destruct (Nat.lt_ge_cases q (List.length (picks n 0 j ws))) as [Hq | Hq].
    + rewrite nth_error_app1 by exact Hq.
      rewrite IH.
      assert (Hsome : nth_error ws (q * n + j) <> None).
      { rewrite <- IH. apply nth_error_Some. exact Hq. }
      apply nth_error_Some in Hsome.
      now rewrite nth_error_app1 by exact Hsome.
    + rewrite nth_error_app2 by exact Hq.
      assert (Hnone : nth_error ws (q * n + j) = None).
      { rewrite <- IH. apply nth_error_None. exact Hq. }
      apply nth_error_None in Hnone. fold N in Hnone.
      rewrite (nth_error_app2 ws) by exact Hnone. fold N.
      destruct (Nat.eqb_spec (N mod n) j) as [E | E].
      * assert (Hl : List.length (picks n 0 j ws) = N / n).
        { rewrite Hlen. destruct (Nat.ltb_spec j (N mod n)); lia. }
        rewrite Hl in *.
        destruct (Nat.eq_dec q (N / n)) as [-> | Hbig].
        -- replace (N / n - N / n) with 0 by lia.
           replace (N / n * n + j - N) with 0 by nia. reflexivity.
        -- assert (Hgt : N / n < q) by lia.
           destruct (q - N / n) as [| d] eqn:Ed; [lia |].
           destruct (q * n + j - N) as [| d'] eqn:Ed'; [nia |].
           cbn [nth_error]. now rewrite !nth_error_nil.
      * rewrite nth_error_nil.
        destruct (q * n + j - N) as [| d'] eqn:Ed'.
        -- exfalso. apply E.
           assert (HN : N = n * q + j) by lia.
           symmetry. apply (Nat.mod_unique _ _ q); [exact Hj | exact HN].
        -- cbn [nth_error]. now rewrite nth_error_nil.
Qed.

Lemma concat_one_more (f g : nat -> list wallet) (w : wallet) (j0 : nat) :
  (forall j, g j = f j ++ (if j0 =? j then [w] else [])) ->
  forall len a,
    a <= j0 < a + len ->
    Permutation (List.concat (map g (seq a len))) (w :: List.concat (map f (seq a len))).
Proof.
  intros Hg. induction len as [| len IH]; intros a Hj0; [lia |].
  cbn [seq map List.concat]. rewrite Hg.
  destruct (Nat.eqb_spec j0 a) as [-> | Hne].
  - assert (Hrest : map g (seq (S a) len) = map f (seq (S a) len)).
    { apply map_ext_in. intros j Hj. apply in_seq in Hj. rewrite Hg.
      destruct (Nat.eqb_spec a j); [lia | now rewrite app_nil_r]. }
    rewrite Hrest, <- app_assoc. cbn [app].
    symmetry. apply Permutation_middle.
  - rewrite app_nil_r.
    rewrite (IH (S a)) by lia.
    symmetry. apply Permutation_middle.
Qed.

Lemma picks_cover (n : nat) (ws : list wallet) :
  0 < n ->
  Permutation (List.concat (map (fun j => picks n 0 j ws) (seq 0 n))) ws.
Proof.
  intros Hn. induction ws as [| w ws IH] using rev_ind.
  - cbn [picks]. induction (seq 0 n) as [| j l IHl]; [constructor | exact IHl].
  - rewrite (concat_one_more (fun j => picks n 0 j ws)
               (fun j => picks n 0 j (ws ++ [w])) w (List.length ws mod n)).
    + rewrite IH. apply Permutation_cons_append.
    + intros j. apply picks_snoc.
    + pose proof (Nat.mod_upper_bound (List.length ws) n). lia.
Qed.

Lemma groups_as_map (n : nat) (groups : list (list wallet))
    (f : nat -> list wallet) :
  List.length groups = n ->
  (forall j, nth j groups [] = f j) ->
  groups = map f (seq 0 n).
Proof.
  intros Hlen Hnth. apply (nth_ext _ _ [] []).
  - now rewrite length_map, length_seq.
  - intros j Hj. rewrite Hnth.
    rewrite (nth_indep _ [] (f 0)) by (rewrite length_map, length_seq; lia).
    rewrite map_nth, seq_nth by lia. reflexivity.
Qed.

(** X18. For a positive thread count the partition succeeds, builds
    exactly that many groups, and deals the wallets round-robin: position
    [q] of group [j] holds the wallet at position [q * thread_count + j] of
    the work list.  Taken together the groups hold every wallet of the work
    list exactly as often as the list does. *)
Theorem wallets_are_dealt_round_robin (thread_count : Z) (ws : list wallet) :
  (0 < thread_count)%Z ->
  exists groups,
    wallet_groups thread_count ws = inr groups /\
    List.length groups = Z.to_nat thread_count /\
    (forall j q,
       j < Z.to_nat thread_count ->
       nth_error (nth j groups []) q =
         nth_error ws (q * Z.to_nat thread_count + j)) /\
    Permutation (List.concat groups) ws.
Proof.
  intros Htc.
  destruct (wallet_groups_picks thread_count ws Htc)
    as [groups [Hg [Hlen Hnth]]].
  exists groups. split; [exact Hg |]. split; [exact Hlen |]. split.
  - intros j q Hj. rewrite Hnth. now apply picks_nth_error.
  - rewrite (groups_as_map _ groups _ Hlen Hnth).
    apply picks_cover. lia.
Qed.

Lemma wallets_are_dealt_round_robin_witness :
  exists groups,
    wallet_groups 2 [RegistrationFacts.alice; RegistrationFacts.bob;
                     RegistrationFacts.alice] = inr groups /\
    List.length groups = Z.to_nat 2 /\
    (forall j q,
       j < Z.to_nat 2 ->
       nth_error (nth j groups []) q =
         nth_error [RegistrationFacts.alice; RegistrationFacts.bob;
                    RegistrationFacts.alice] (q * Z.to_nat 2 + j)) /\
    Permutation (List.concat groups)
      [RegistrationFacts.alice; RegistrationFacts.bob; RegistrationFacts.alice].
Proof.
  apply (wallets_are_dealt_round_robin 2
           [RegistrationFacts.alice; RegistrationFacts.bob;
            RegistrationFacts.alice]).
  reflexivity.
Defined.

Lemma filter_all {A : Type} (p : A -> bool) (l : list A) :
  (forall x, In x l -> p x = true) -> filter p l = l.
Proof.
  induction l as [| x l IH]; intros H; [reflexivity |].
  cbn [filter]. rewrite (H x (or_introl eq_refl)), IH; [reflexivity |].
  intros y Hy. apply H. now right.
Qed.

Lemma filter_none {A : Type} (p : A -> bool) (l : list A) :
  (forall x, In x l -> p x = false) -> filter p l = [].
Proof.
  induction l as [| x l IH]; intros H; [reflexivity |].
  cbn [filter]. rewrite (H x (or_introl eq_refl)). apply IH.
  intros y Hy. apply H. now right.
Qed.

Lemma filter_map_length {A B : Type} (p : B -> bool) (f : A -> B) (l : list A) :
  List.length (filter p (map f l)) = List.length (filter (fun x => p (f x)) l).
Proof.
  induction l as [| x l IH]; [reflexivity |].
  cbn [map filter]. destruct (p (f x)); cbn [List.length]; now rewrite IH.
Qed.

(** X19. For a positive thread count the groups are balanced: group [j]
    holds len / thread_count wallets, and one more when
    j < len mod thread_count, so two groups differ by at most one wallet;
    and the number of non-empty groups, each of which gets a worker, is the
    smaller of the thread count and the number of wallets. *)
Theorem lanes_are_balanced (thread_count : Z) (ws : list wallet) :
  (0 < thread_count)%Z ->
  exists groups,
    wallet_groups thread_count ws = inr groups /\
    (forall j,
       j < Z.to_nat thread_count ->
       List.length (nth j groups []) =
         List.length ws / Z.to_nat thread_count +
         (if j <? List.length ws mod Z.to_nat thread_count then 1 else 0)) /\
    (forall i j,
       i < Z.to_nat thread_count -> j < Z.to_nat thread_count ->
       List.length (nth i groups []) <= List.length (nth j groups []) + 1) /\
    List.length (lanes groups) = Nat.min (Z.to_nat thread_count) (List.length ws).
Proof.
  intros Htc.
  destruct (wallet_groups_picks thread_count ws Htc)
    as [groups [Hg [Hlen Hnth]]].
  set (n := Z.to_nat thread_count) in *.
  assert (Hn : 0 < n) by (subst n; lia).
  assert (Hsize : forall j, j < n ->
            List.length (nth j groups []) =
              List.length ws / n + (if j <? List.length ws mod n then 1 else 0)).
  { intros j Hj. rewrite Hnth. now apply picks_length. }
  exists groups. split; [exact Hg |]. split; [exact Hsize |]. split.
  - intros i j Hi Hj. rewrite (Hsize i Hi), (Hsize j Hj).
    destruct (i <? List.length ws mod n), (j <? List.length ws mod n); lia.
  - rewrite (groups_as_map _ groups _ Hlen Hnth). unfold lanes.
    rewrite filter_map_length.
    set (N := List.length ws) in *.
    assert (Hlenj : forall j, j < n ->
              List.length (picks n 0 j ws) =
                N / n + (if j <? N mod n then 1 else 0))
      by (intros j Hj; now apply picks_length).
    destruct (Nat.le_gt_cases n N) as [Hmany | Hfew].
    + rewrite filter_all, length_seq; [lia |].
      intros j Hj. apply in_seq in Hj.
      assert (Hq : 1 <= N / n) by (apply Nat.div_le_lower_bound; lia).
      specialize (Hlenj j ltac:(lia)).
      destruct (picks n 0 j ws); [cbn in Hlenj; lia | reflexivity].
    + assert (Hq : N / n = 0) by (apply Nat.div_small; lia).
      assert (Hr : N mod n = N) by (apply Nat.mod_small; lia).
      replace n with (N + (n - N)) at 1 by lia.
      rewrite seq_app, filter_app, filter_all, filter_none.
      * rewrite app_nil_r, length_seq. lia.
      * intros j Hj. apply in_seq in Hj.
        specialize (Hlenj j ltac:(lia)). rewrite Hq, Hr in Hlenj.
        destruct (Nat.ltb_spec j N); [lia |].
        destruct (picks n 0 j ws); [reflexivity | cbn in Hlenj; lia].
      * intros j Hj. apply in_seq in Hj.
        specialize (Hlenj j ltac:(lia)). rewrite Hq, Hr in Hlenj.
        destruct (Nat.ltb_spec j N); [| lia].
        destruct (picks n 0 j ws); [cbn in Hlenj; lia | reflexivity].
Qed.

Lemma lanes_are_balanced_witness :
  exists groups,
    wallet_groups 3 [RegistrationFacts.alice; RegistrationFacts.bob] = inr groups /\
    (forall j,
       j < Z.to_nat 3 ->
       List.length (nth j groups []) =
         List.length [RegistrationFacts.alice; RegistrationFacts.bob] / Z.to_nat 3 +
         (if j <? List.length [RegistrationFacts.alice; RegistrationFacts.bob]
                  mod Z.to_nat 3 then 1 else 0)) /\
    (forall i j,
       i < Z.to_nat 3 -> j < Z.to_nat 3 ->
       List.length (nth i groups []) <= List.length (nth j groups []) + 1) /\
    List.length (lanes groups) =
      Nat.min (Z.to_nat 3)
        (List.length [RegistrationFacts.alice; RegistrationFacts.bob]).
Proof.
  apply (lanes_are_balanced 3 [RegistrationFacts.alice; RegistrationFacts.bob]).
  reflexivity.
Defined.

(** X20. With a non-empty work list, a thread count of zero makes the
    partition loop raise ZeroDivisionError at the first wallet, and a
    negative thread count makes it raise IndexError there: no group is
    built and no worker can be started. *)
Theorem nonpositive_thread_count_raises
    (thread_count : Z) (w : wallet) (ws : list wallet) :
  (thread_count = 0%Z ->
     wallet_groups thread_count (w :: ws) = inl (Builtin ZeroDivisionError)) /\
  ((thread_count < 0)%Z ->
     wallet_groups thread_count (w :: ws) = inl IndexError).
Proof.
  split.
  - intros ->. reflexivity.
  - intros Hneg. unfold wallet_groups, empty_groups.
    replace (Z.to_nat thread_count) with 0 by lia.
    cbn [repeat distribute]. unfold place, Py.mod_.
    destruct (Z.eqb_spec thread_count 0); [lia |].
    cbn [Z.of_nat List.length]. rewrite Z.mod_0_l by lia. reflexivity.
Qed.

End PartitionFacts.


(** * Properties of the confirmation rounds *)

Module ConfirmationFacts.

Import Registration Orchestration.
Local Open Scope nat_scope.

Lemma wallet_eqb_eq (a b : wallet) : wallet_eqb a b = true <-> a = b.
Proof.
  unfold wallet_eqb. rewrite andb_true_iff, !String.eqb_eq.
  destruct a as [ca ha], b as [cb hb]. cbn [coldkey hotkey]. split.
  - intros [-> ->]. reflexivity.
  - intros [= -> ->]. split; reflexivity.
Qed.

Lemma registered_in_In (w : wallet) (registered : list wallet) :
  registered_in w registered = true <-> In w registered.
Proof.
  unfold registered_in. rewrite existsb_exists. split.
  - intros [x [Hx Heq]]. apply wallet_eqb_eq in Heq. now subst.
  - intros H. exists w. split; [exact H | now apply wallet_eqb_eq].
Qed.

Lemma confirm_spec (chain : nat -> result bool) (ws : list wallet) :
  forall i registered newly,
    NoDup registered ->
    exists added,
      confirm chain i ws registered newly = (registered ++ added, newly ++ added) /\
      NoDup (registered ++ added) /\
      incl added ws.
Proof.
  induction ws as [| w ws IH]; intros i registered newly Hnd.
  - exists []. cbn [confirm]. rewrite !app_nil_r.
    split; [reflexivity |]. split; [exact Hnd | intros x []].
  - cbn [confirm].
    assert (Hskip : exists added,
              confirm chain (S i) ws registered newly
              = (registered ++ added, newly ++ added) /\
              NoDup (registered ++ added) /\ incl added (w :: ws)).
    { destruct (IH (S i) registered newly Hnd) as [added [H1 [H2 H3]]].
      exists added. split; [exact H1 |]. split; [exact H2 |].
      intros x Hx. right. now apply H3. }
    destruct (registered_in w registered) eqn:Hin; [exact Hskip |].
    destruct (chain i) as [[|] | e]; [| exact Hskip | exact Hskip].
    assert (Hnd' : NoDup (registered ++ [w])).
    { apply NoDup_app; [exact Hnd | repeat constructor; intros [] |].
      intros x Hx [<- | []].
      apply registered_in_In in Hx. congruence. }
    destruct (IH (S i) (registered ++ [w]) (newly ++ [w]) Hnd')
      as [added [H1 [H2 H3]]].
    exists (w :: added). rewrite H1, <- !app_assoc. cbn [app].
    split; [reflexivity |]. split.
    + rewrite <- app_assoc in H2. exact H2.
    + intros x [<- | Hx]; [left; reflexivity | right; now apply H3].
Qed.

Lemma round_spec (ws registered : list wallet) (chain : nat -> result bool) :
  NoDup registered -> incl registered ws ->
  exists added,
    round ws registered chain = registered ++ added /\
    NoDup (round ws registered chain) /\
    incl (round ws registered chain) ws.
Proof.
  intros Hnd Hincl. unfold round.
  destruct (confirm_spec chain ws 0 registered [] Hnd) as [added [-> [H2 H3]]].
  cbn [fst]. exists added. split; [reflexivity |]. split; [exact H2 |].
  apply incl_app; assumption.
Qed.

Lemma rounds_from (ws : list wallet) (chains : list (nat -> result bool)) :
  forall registered,
    NoDup registered -> incl registered ws ->
    exists added,
      fold_left (round ws) chains registered = registered ++ added /\
      NoDup (fold_left (round ws) chains registered) /\
      incl (fold_left (round ws) chains registered) ws.
Proof.
  induction chains as [| chain chains IH]; intros registered Hnd Hincl.
  - exists []. cbn [fold_left]. rewrite app_nil_r. repeat split; assumption.
  - cbn [fold_left].
    destruct (round_spec ws registered chain Hnd Hincl) as [a1 [H1 [H2 H3]]].
    destruct (IH _ H2 H3) as [a2 [H4 [H5 H6]]].
    exists (a1 ++ a2). rewrite H4, H1, <- app_assoc.
    split; [reflexivity |]. rewrite H4, H1 in H5, H6.
    rewrite <- app_assoc in H5, H6. split; assumption.
Qed.

(** X21. Whatever the chain answers in any number of rounds of the status
    loop, the confirmed list never holds a wallet twice and holds only
    wallets of the work list, so the remaining count
    [total_wallets - len(registered_wallets)] is never negative; and a
    later round only appends to what an earlier round confirmed. *)
Theorem confirmed_wallets_counted_once
    (ws : list wallet) (earlier later : list (nat -> result bool)) :
  NoDup (rounds ws earlier) /\
  incl (rounds ws earlier) ws /\
  List.length (rounds ws earlier) <= List.length ws /\
  exists added, rounds ws (earlier ++ later) = rounds ws earlier ++ added.
Proof.
  unfold rounds.
  destruct (rounds_from ws earlier [] (NoDup_nil _) (incl_nil_l _))
    as [confirmed [H1 [H2 H3]]].
  split; [exact H2 |]. split; [exact H3 |]. split.
  - apply NoDup_incl_length; assumption.
  - rewrite fold_left_app.
    destruct (rounds_from ws later _ H2 H3) as [added [H4 _]].
    exists added. exact H4.
Qed.

End ConfirmationFacts.

(** * Properties of the statistics over IEEE 754 doubles *)

Module Binary64Facts.

Import Binary64.
#[local] Set Warnings "-inexact-float".
Local Open Scope float_scope.



Lemma len_is_not_zero (n : nat) :
  (1 <= n <= 10)%nat -> is_zero (of_int (Z.of_nat n)) = false.
Proof.
  intros H.
  do 11 (destruct n as [| n]; [first [lia | vm_compute; reflexivity] |]).
  lia.
Qed.

(** When the ['current_multiplier'] expression raises. *)
Lemma reported_multiplier_raises (s : strategy) (e : exn) :
  reported_multiplier s = Raise e <->
  e = ZeroDivisionError /\
  exists lf,
    last_fee s = Some lf /\ truthy lf = true /\
    (is_zero (base_multiplier s) = true \/
     is_zero (lf / base_multiplier s) = true).
Proof.
  unfold reported_multiplier.
  destruct (last_fee s) as [lf |];
    [| split; [discriminate | intros [_ [lf [H _]]]; discriminate]].
  destruct (truthy lf) eqn:Hlf.
  - unfold div at 1.
    destruct (is_zero (base_multiplier s)) eqn:Hb; cbn [bind].
    + split.
      * intros [= <-]. split; [reflexivity |]. exists lf. auto.
      * intros [-> _]. reflexivity.
    + unfold div.
      destruct (is_zero (lf / base_multiplier s)) eqn:Hd.
      * split.
        -- intros [= <-]. split; [reflexivity |]. exists lf. auto.
        -- intros [-> _]. reflexivity.
      * split; [discriminate |].
        intros [_ [lf' [[= <-] [_ [H | H]]]]]; congruence.
  - split; [discriminate |].
    intros [_ [lf' [[= <-] [H _]]]]. congruence.
Qed.

(** X9. For a history of at most ten fees (as in every state reached from
    the constructor), [get_fee_statistics] raises only ZeroDivisionError and
    only from the ['current_multiplier'] expression: exactly when the
    history is non-empty, the last fee is nonzero, and the base multiplier
    is zero or the rounded quotient of the last fee by the base multiplier
    is zero.  The average, the minimum and the maximum never raise. *)
Theorem statistics_raise_iff (s : strategy) (e : exn) :
  (List.length (recent_fees s) <= 10)%nat ->
  (get_fee_statistics s = Raise e <->
   e = ZeroDivisionError /\
   recent_fees s <> [] /\
   exists lf,
     last_fee s = Some lf /\ truthy lf = true /\
     (is_zero (base_multiplier s) = true \/
      is_zero (lf / base_multiplier s) = true)).
Proof.
  intros Hlen. unfold get_fee_statistics.
  destruct (recent_fees s) as [| f fees] eqn:Hfees.
  - split; [discriminate | intros [_ [H _]]; congruence].
  - assert (Havg : div (sum (f :: fees)) (of_int (len (f :: fees)))
                   = Ok (sum (f :: fees) / of_int (len (f :: fees)))).
    { unfold div, len. rewrite len_is_not_zero; [reflexivity |].
      cbn [List.length] in *. lia. }
    rewrite Havg. cbn [min_list max_list].
    destruct (reported_multiplier s) as [cm | e'] eqn:Hcm; cbn [bind].
    + split; [discriminate |].
      intros [_ [_ Hex]].
      assert (Habs : reported_multiplier s = Raise ZeroDivisionError)
        by (apply reported_multiplier_raises; split; [reflexivity | exact Hex]).
      congruence.
    + apply reported_multiplier_raises in Hcm. destruct Hcm as [-> Hex].
      split.
      * intros [= <-]. split; [reflexivity |]. split; [discriminate | exact Hex].
      * intros [-> _]. reflexivity.
Qed.

(** A strategy with base multiplier 2^1000 whose last fee is 1.5 * 2^-100. *)
Definition underflowing : strategy :=
  {| base_multiplier := 0x1p+1000;
     max_multiplier := 2.0;
     adapt_threshold := 5;
     attempts := 6;
     successes := 0;
     success_rate := 0;
     block_congestion := 0;
     recent_fees := [0x1.8p-100];
     last_fee := Some 0x1.8p-100 |}.

Lemma statistics_raise_iff_witness :
  get_fee_statistics underflowing = Raise ZeroDivisionError <->
  ZeroDivisionError = ZeroDivisionError /\
  recent_fees underflowing <> [] /\
  exists lf,
    last_fee underflowing = Some lf /\ truthy lf = true /\
    (is_zero (base_multiplier underflowing) = true \/
     is_zero (lf / base_multiplier underflowing) = true).
Proof.
  apply (statistics_raise_iff underflowing ZeroDivisionError).
  cbn. lia.
Defined.

End Binary64Facts.
